(** * The HTTP transport of the KNOT gateway

    A shallow embedding of the HTTP backend of the gateway's protocol
    abstraction ([proto_http]): the status mapping [http2errno], the
    response buffer and its write callback, the envelope check
    [check_json], the request routine [fetch_url], the device operations
    built on it, and the poll timer and hang-up watch that
    [proto_register_watch] installs on the GLib main loop.

    What lies outside the repository is an input of the model: libcurl's
    transfer (which chunks reach the write callback and the codes it
    reports), the allocator (whether a [realloc] succeeds), json-c's
    tokener and printer, the resolver and the socket calls.  C strings are
    [string]s (the characters before the terminator), pointers that may
    be [NULL] are [option]s, memory blocks are [list ascii], [int] and
    [long] results are [Z], and byte counts ([size_t]) are [nat]: a count
    never exceeds the block it measures. *)

From Stdlib Require Import ZArith List String Ascii Bool Arith Lia DecimalString.
Import ListNotations.

Open Scope string_scope.
Open Scope list_scope.

Infix "+++" := String.append (at level 60, right associativity).

(** ** Constants *)

(** The [errno] values of <errno.h> on Linux. *)
Definition EPERM : Z := 1.
Definition ENOENT : Z := 2.
Definition EIO : Z := 5.
Definition ENOMEM : Z := 12.
Definition EINVAL : Z := 22.

(** libcurl's result codes used below. *)
Definition CURLE_OK : Z := 0.
Definition CURLE_WRITE_ERROR : Z := 23.

Definition CURL_OP_TIMEOUT : Z := 30.
Definition REQUEST_SIZE : nat := 10.
Definition EXPECTED_RESPONSE_ARRAY_LENGTH : nat := 1.
Definition MESHBLU_UUID_SIZE : nat := 36.
Definition MESHBLU_TOKEN_SIZE : nat := 40.
Definition DEFAULT_MESHBLU_SERVER_URI : string := "meshblu.octoblu.com".
Definition MESHBLU_AUTH_UUID : string := "meshblu_auth_uuid: ".
Definition MESHBLU_AUTH_TOKEN : string := "meshblu_auth_token: ".

(** [sizeof] of a string literal counts its terminator. *)
Definition sizeof_lit (s : string) : nat := S (String.length s).
Definition MESHBLU_AUTH_UUID_SIZE : nat := sizeof_lit MESHBLU_AUTH_UUID.
Definition MESHBLU_AUTH_TOKEN_SIZE : nat := sizeof_lit MESHBLU_AUTH_TOKEN.

(** ** C strings and memory blocks *)

Definition NUL : ascii := Ascii.zero.

Definition is_nul (c : ascii) : bool := Ascii.eqb c NUL.

(** The C string that starts a block: its characters up to the first
    terminator. *)
Fixpoint c_str (blk : list ascii) : string :=
  match blk with
  | [] => EmptyString
  | c :: rest => if is_nul c then EmptyString else String c (c_str rest)
  end.

Definition strlen (s : string) : nat := String.length s.

(** The bytes a C string occupies, terminator included. *)
Definition bytes_of (s : string) : list ascii := list_ascii_of_string s ++ [NUL].

(** [snprintf (buf, n, ...)] keeps at most [n - 1] characters of the
    formatted text. *)
Definition snprintf (n : nat) (text : string) : string :=
  substring 0 (n - 1) text.

(** [strncpy (dst, src, n)] followed by reading [dst] as a string: the
    first [n] characters of [src].  (With [strlen src >= n] the C array
    is left unterminated; the callers in this file pass method names of
    at most six characters.) *)
Definition strncpy (n : nat) (src : string) : string := substring 0 n src.

Definition toupper (c : ascii) : ascii :=
  let n := nat_of_ascii c in
  if (97 <=? n)%nat && (n <=? 122)%nat then ascii_of_nat (n - 32) else c.

Fixpoint upcase (s : string) : string :=
  match s with
  | EmptyString => EmptyString
  | String c rest => String (toupper c) (upcase rest)
  end.

(** [realloc (p, n)]: [None] when the allocator fails; otherwise a block
    of [n] bytes that starts with the old contents.  Bytes C leaves
    indeterminate read as [NUL] here; the code below writes every byte it
    later reads. *)
Definition realloc (heap_ok : bool) (p : option (list ascii)) (n : nat)
  : option (list ascii) :=
  if heap_ok then
    let old := match p with Some blk => blk | None => [] end in
    Some (firstn n old ++ repeat NUL (n - List.length old))
  else None.

(** [memcpy (dst + off, src, n)]. *)
Definition memcpy (dst : list ascii) (off : nat) (src : list ascii) (n : nat)
  : list ascii :=
  firstn off dst ++ firstn n src ++ skipn (off + n) dst.

(** [dst[i] = c]. *)
Definition store (dst : list ascii) (i : nat) (c : ascii) : list ascii :=
  firstn i dst ++ [c] ++ skipn (S i) dst.

(** ** The response buffer ([json_raw_t] of proto.h) *)

Record json_raw_t := mk_json_raw {
  data : option (list ascii);
  size : nat
}.

(** ** What the program does to the outside *)

Inductive log_arg :=
| AStr (s : option string)
| AInt (n : Z)
| AErr (code : Z)           (* the text strerror-like calls give for a code *)
| AAddr (addr : Z).         (* the text inet_ntoa gives for an address *)

(** The handle libcurl is given: the options [fetch_url] sets. *)
Record CURL := mk_CURL {
  customrequest : string;
  url : option string;
  httpheader : list string;
  postfields : option string;
  useragent : string;
  timeout : Z;
  followlocation : Z;
  maxredirs : Z;
  noprogress : Z;
  opensocketdata : option Z
}.

Inductive event :=
| log_info (fmt : string) (args : list log_arg)
| log_error (fmt : string) (args : list log_arg)
| curl_perform (ch : CURL)
| tokener_parse (json_str : option string)
| watch_cb (cb : Z) (json : json_raw_t) (user_data : Z)
| dispatch (callback : string) (handle : nat)
| g_free (handle : nat).

(** ** Status mapping *)

Definition http2errno (ehttp : Z) : Z :=
  match ehttp with
  | 200 | 201 => 0
  | 401 | 403 => - EPERM
  | 404 => - ENOENT
  | _ => - EIO
  end%Z.

(** ** The write callback *)

Definition write_cb (heap_ok : bool) (contents : list ascii)
    (size_ nmemb : nat) (json : json_raw_t) : nat * json_raw_t * list event :=
  let realsize := size_ * nmemb in
  match realloc heap_ok (data json) (size json + realsize + 1) with
  | None =>
      (0, mk_json_raw None (size json), [log_error "Not enough memory" []])
  | Some blk =>
      let blk := memcpy blk (size json) contents realsize in
      let size' := size json + realsize in
      (* Forcing NULL terminated string *)
      let blk := store blk size' NUL in
      (realsize, mk_json_raw (Some blk) size', [])
  end.

(** ** json-c's objects

    A [json_object *] as the code sees it through json-c's accessors:
    [jnull] is the [NULL] pointer, which json-c uses both for the JSON
    literal [null] and for a failed parse. *)

Inductive json_type :=
| json_type_null
| json_type_boolean
| json_type_double
| json_type_int
| json_type_object
| json_type_array
| json_type_string.

#[local] Unset Elimination Schemes.
Inductive json_object :=
| jnull
| jboolean (b : bool)
| jdouble (text : string)
| jint (i : Z)
| jobject (members : list (string * json_object))
| jarray (elems : list json_object)
| jstring (s : string).
#[local] Set Elimination Schemes.

Definition json_object_get_type (jso : json_object) : json_type :=
  match jso with
  | jnull => json_type_null
  | jboolean _ => json_type_boolean
  | jdouble _ => json_type_double
  | jint _ => json_type_int
  | jobject _ => json_type_object
  | jarray _ => json_type_array
  | jstring _ => json_type_string
  end.

Definition json_type_eqb (a b : json_type) : bool :=
  match a, b with
  | json_type_null, json_type_null
  | json_type_boolean, json_type_boolean
  | json_type_double, json_type_double
  | json_type_int, json_type_int
  | json_type_object, json_type_object
  | json_type_array, json_type_array
  | json_type_string, json_type_string => true
  | _, _ => false
  end.

Fixpoint lookup_member (key : string) (members : list (string * json_object))
  : option json_object :=
  match members with
  | [] => None
  | (k, v) :: rest => if String.eqb k key then Some v else lookup_member key rest
  end.

(** [json_object_object_get_ex (jso, key, &value)]: [None] for the
    [FALSE] result, [Some value] for [TRUE]. *)
Definition json_object_object_get_ex (jso : json_object) (key : string)
  : option json_object :=
  match jso with
  | jobject members => lookup_member key members
  | _ => None
  end.

Definition json_object_array_length (jso : json_object) : nat :=
  match jso with
  | jarray elems => List.length elems
  | _ => 0
  end.

Definition json_object_array_get_idx (jso : json_object) (idx : nat)
  : json_object :=
  match jso with
  | jarray elems => nth idx elems jnull
  | _ => jnull
  end.

(** ** What the outside answers during one operation *)

(** One call of the write callback by libcurl: the bytes handed over, and
    whether the allocator lets the buffer grow at that moment. *)
Record delivery := mk_delivery {
  contents : list ascii;
  grow_ok : bool
}.

Record oracle := mk_oracle {
  curl_init_ok : bool;          (* curl_easy_init returns a handle *)
  deliveries : list delivery;   (* the body, as libcurl chunks it *)
  perform_code : Z;             (* curl_easy_perform, when no write fails *)
  getinfo_code : Z;             (* curl_easy_getinfo *)
  response_code : Z;            (* CURLINFO_RESPONSE_CODE *)
  extract_ok : bool             (* the realloc of check_json succeeds *)
}.

(** ** Envelope check *)

Section JsonC.

(** json-c's tokener and printer.  The tokener gets the pointer as the
    code passes it ([None] is the [NULL] an empty response leaves in the
    buffer) and the printer accepts [jnull]. *)
Variable json_tokener_parse : option string -> json_object.
Variable json_object_to_json_string : json_object -> string.

Definition check_json (heap_ok : bool) (json_str : option string)
    (json : json_raw_t) : Z * json_raw_t * list event :=
  let jobj := json_tokener_parse json_str in
  let ev := [tokener_parse json_str] in
  match jobj with
  | jnull => ((-1)%Z, json, ev)
  | _ =>
    match json_object_object_get_ex jobj "devices" with
    | None => ((-1)%Z, json, ev)
    | Some jobjarray =>
      if negb (json_type_eqb (json_object_get_type jobjarray) json_type_array)
         || negb (json_object_array_length jobjarray
                    =? EXPECTED_RESPONSE_ARRAY_LENGTH)%nat
      then ((-1)%Z, json, ev)
      else
        let jres := json_object_array_get_idx jobjarray 0 in
        let jobjstr := json_object_to_json_string jres in
        let realsize := strlen jobjstr + 1 in
        match realloc heap_ok (data json) realsize with
        | None =>
            ((- ENOMEM)%Z, mk_json_raw None (size json),
             ev ++ [log_error "Not enough memory" []])
        | Some blk =>
            let blk := memcpy blk 0 (bytes_of jobjstr) realsize in
            let blk := store blk (realsize - 1) NUL in
            (0%Z, mk_json_raw (Some blk) realsize, ev)
        end
    end
  end.

End JsonC.

(** ** The transfer

    [curl_easy_perform] as far as this file depends on it: libcurl hands
    the body to the write callback chunk by chunk (with [size = 1]), stops
    with [CURLE_WRITE_ERROR] as soon as the callback returns a count other
    than the chunk's, and otherwise reports the transfer's own code. *)

Fixpoint deliver (ds : list delivery) (json : json_raw_t)
  : bool * json_raw_t * list event :=
  match ds with
  | [] => (true, json, [])
  | d :: rest =>
      let '(n, json1, ev1) :=
        write_cb (grow_ok d) (contents d) 1 (List.length (contents d)) json in
      if (n =? List.length (contents d))%nat then
        let '(ok, json2, ev2) := deliver rest json1 in
        (ok, json2, ev1 ++ ev2)
      else (false, json1, ev1)
  end.

Definition curl_easy_perform (o : oracle) (ch : CURL) (json : json_raw_t)
  : Z * json_raw_t * list event :=
  let '(ok, json1, ev) := deliver (deliveries o) json in
  ((if ok then perform_code o else CURLE_WRITE_ERROR), json1,
   curl_perform ch :: ev).

(** ** Fetch and return url body via curl *)

Record outcome := mk_outcome {
  ret : Z;
  buf : option json_raw_t;
  events : list event
}.

Definition auth_headers (uuid token : option string) : list string :=
  match uuid, token with
  | Some u, Some t =>
      [ snprintf (MESHBLU_AUTH_UUID_SIZE + MESHBLU_UUID_SIZE)
          (MESHBLU_AUTH_UUID +++ u);
        snprintf (MESHBLU_AUTH_TOKEN_SIZE + MESHBLU_TOKEN_SIZE)
          (MESHBLU_AUTH_TOKEN +++ t) ]
  | _, _ => []
  end.

Definition json_headers (json : option string) : list string :=
  match json with
  | Some _ =>
      [ "Accept: application/json";
        "Content-Type: application/json";
        "charsets: utf-8" ]
  | None => []
  end.

Definition fetch_url (o : oracle) (sockfd : Z) (action json uuid token : option string)
    (fetch : option json_raw_t) (request : option string) : outcome :=
  match request, fetch with
  | Some request, Some fetch0 =>
    let ev0 := [log_info "action: %s" [AStr action]] in
    if negb (curl_init_ok o) then
      mk_outcome (- ENOMEM)%Z (Some fetch0)
        (ev0 ++ [log_error "curl_easy_init(): init failed" []])
    else
      let fetch1 := mk_json_raw None 0 in
      let upcase_request := upcase (strncpy (REQUEST_SIZE + 1) request) in
      let ev1 := [log_info "HTTP(%s): %s" [AStr (Some upcase_request); AStr action]] in
      let ev2 :=
        match uuid, token with
        | Some _, Some _ => [log_info " AUTH: %s\n       %s" [AStr uuid; AStr token]]
        | _, _ => []
        end in
      let ev3 :=
        match json with
        | Some _ => [log_info " JSON TX: %s" [AStr json]]
        | None => []
        end in
      let ch := {|
        customrequest := upcase_request;
        url := action;
        httpheader := auth_headers uuid token ++ json_headers json;
        postfields := json;
        useragent := "libcurl-agent/1.0";
        timeout := CURL_OP_TIMEOUT;
        followlocation := 1;
        maxredirs := 1;
        noprogress := 1;
        opensocketdata := if (sockfd >? 0)%Z then Some sockfd else None
      |} in
      let '(rcode, fetch2, ev4) := curl_easy_perform o ch fetch1 in
      let ev := ev0 ++ ev1 ++ ev2 ++ ev3 ++ ev4 in
      if negb (rcode =? CURLE_OK)%Z then
        mk_outcome (- EIO)%Z (Some fetch2)
          (ev ++ [log_error "curl_easy_perform(): %s(%d)" [AErr rcode; AInt rcode]])
      else if negb (getinfo_code o =? CURLE_OK)%Z then
        mk_outcome (- EIO)%Z (Some fetch2)
          (ev ++ [log_error "curl_easy_getinfo(): %s(%d)"
                    [AErr (getinfo_code o); AInt (getinfo_code o)]])
      else
        let ev5 :=
          match data fetch2 with
          | Some blk => [log_info " JSON RX: %s" [AStr (Some (c_str blk))]]
          | None => [log_info " JSON RX: Empty" []]
          end in
        mk_outcome (http2errno (response_code o)) (Some fetch2)
          (ev ++ ev5 ++ [log_info "HTTP: %ld" [AInt (response_code o)]])
  | _, _ =>
    mk_outcome (- EINVAL)%Z fetch [log_error "Invalid argument!" []]
  end.

(** ** Endpoint ([host_addr], [host_port] and the three URI statics) *)

Record globals := mk_globals {
  host_addr : Z;
  host_port : N;
  host_uri : string;
  device_uri : string;
  data_uri : string
}.

(** [%u] of a port number. *)
Definition fmt_u (n : N) : string := NilZero.string_of_uint (N.to_uint n).

(** [gethostbyname] answers with an address, or fails and sets [h_errno]. *)
Record resolver := mk_resolver {
  h_addr : option Z;
  h_errno : Z
}.

(** The statics are assigned before the name is resolved, so the second
    component holds them also when the probe fails; [host_addr] keeps its
    previous value [addr0] in that case.  The name resolved is [host]
    itself, not the default put in the URIs: with a [NULL] host the code
    calls [gethostbyname (NULL)], which is outside that call's contract
    and does not return (glibc faults), so there is no result then. *)
Definition http_probe (dns : resolver) (addr0 : Z) (host : option string)
    (port : N) : option Z * globals * list event :=
  let host_uri :=
    match host with
    | Some h => h +++ ":" +++ fmt_u port
    | None => DEFAULT_MESHBLU_SERVER_URI +++ ":" +++ fmt_u port
    end in
  let device_uri := host_uri +++ "/devices" in
  let data_uri := host_uri +++ "/data" in
  match host with
  | None => (None, mk_globals addr0 port host_uri device_uri data_uri, [])
  | Some _ =>
    match h_addr dns with
    | None =>
        (Some (- h_errno dns)%Z,
         mk_globals addr0 port host_uri device_uri data_uri,
         [log_error "gethostbyname(%s): %s (%d)"
            [AStr (Some host_uri); AErr (h_errno dns); AInt (h_errno dns)]])
    | Some a =>
        (Some 0%Z, mk_globals a port host_uri device_uri data_uri,
         [log_info "Meshblu IP: %s" [AAddr a]])
    end
  end.

(** ** Connect and close *)

(** The answers of [socket] and [connect], and the [errno] each leaves. *)
Record sockets := mk_sockets {
  socket_fd : Z;
  socket_errno : Z;
  connect_rc : Z;
  connect_errno : Z
}.

Definition remove_fd (fd : Z) (fds : list Z) : list Z :=
  filter (fun x => negb (x =? fd)%Z) fds.

(** [fds] is the set of descriptors the process holds open. *)
Definition http_connect (n : sockets) (g : globals) (fds : list Z)
  : Z * list Z * list event :=
  let sock := socket_fd n in
  if (sock =? -1)%Z then
    ((- socket_errno n)%Z, fds,
     [log_error "Meshblu socket(): %s(%d)"
        [AErr (socket_errno n); AInt (socket_errno n)]])
  else
    let fds1 := sock :: fds in
    if (connect_rc n <? 0)%Z then
      ((- connect_errno n)%Z, remove_fd sock fds1,
       [log_error "Meshblu connect(): %s(%d)"
          [AErr (connect_errno n); AInt (connect_errno n)]])
    else (sock, fds1, []).

Definition http_close (sock : Z) (fds : list Z) : list Z := fds.

(** ** Device operations

    [uuid] and [token] are the caller's strings; [jreq] and the buffer
    [json] are pointers that [fetch_url] tests. *)

(** [snprintf (uri, sizeof (uri), "%s/%s", base, uuid)] into an array of
    [strlen (base) + 2 + MESHBLU_UUID_SIZE] characters. *)
Definition mk_uri (base uuid : string) : string :=
  snprintf (strlen base + 2 + MESHBLU_UUID_SIZE) (base +++ "/" +++ uuid).

Section Operations.

Variable json_tokener_parse : option string -> json_object.
Variable json_object_to_json_string : json_object -> string.

Definition http_mknode (o : oracle) (g : globals) (sock : Z)
    (jreq : option string) (json : option json_raw_t) : outcome :=
  fetch_url o sock (Some (device_uri g)) jreq None None json (Some "POST").

(** The buffer is dereferenced only after [fetch_url] succeeded, and
    [fetch_url] returns [-EINVAL] for a [NULL] buffer: the [None] branch
    below is never taken. *)
Definition http_signin (o : oracle) (g : globals) (sock : Z)
    (uuid token : string) (json : option json_raw_t) : outcome :=
  let uri := mk_uri (device_uri g) uuid in
  let r :=
    fetch_url o sock (Some uri) None (Some uuid) (Some token) json (Some "GET") in
  let err := ret r in
  if (err <? 0)%Z then r
  else
    match buf r with
    | None => r
    | Some json0 =>
        let '(c, json1, ev) :=
          check_json json_tokener_parse json_object_to_json_string
            (extract_ok o) (option_map c_str (data json0)) json0 in
        if (c <? 0)%Z
        then mk_outcome (- EINVAL)%Z (Some json1) (events r ++ ev)
        else mk_outcome err (Some json1) (events r ++ ev)
    end.

Definition http_rmnode (o : oracle) (g : globals) (sock : Z)
    (uuid token : string) (jbuf : option json_raw_t) : outcome :=
  let uri := mk_uri (device_uri g) uuid in
  fetch_url o sock (Some uri) None (Some uuid) (Some token) jbuf (Some "DELETE").

Definition http_schema (o : oracle) (g : globals) (sock : Z)
    (uuid token : string) (jreq : option string) (json : option json_raw_t)
  : outcome :=
  let uri := mk_uri (device_uri g) uuid in
  fetch_url o sock (Some uri) jreq (Some uuid) (Some token) json (Some "PUT").

Definition http_data (o : oracle) (g : globals) (sock : Z)
    (uuid token : string) (jreq : option string) (json : option json_raw_t)
  : outcome :=
  let uri := mk_uri (data_uri g) uuid in
  fetch_url o sock (Some uri) jreq (Some uuid) (Some token) json (Some "POST").

Definition http_setdata (o : oracle) (g : globals) (sock : Z)
    (uuid token : string) (jreq : option string) (json : option json_raw_t)
  : outcome :=
  let uri := mk_uri (device_uri g) uuid in
  fetch_url o sock (Some uri) jreq (Some uuid) (Some token) json (Some "PUT").

(** Gets all the data from the device with the given uuid and token *)
Definition http_fetch (o : oracle) (g : globals) (sock : Z)
    (uuid token : string) (json : option json_raw_t) : outcome :=
  let uri := mk_uri (device_uri g) uuid in
  let r :=
    fetch_url o sock (Some uri) None (Some uuid) (Some token) json (Some "GET") in
  let err := ret r in
  if (err <? 0)%Z then r
  else
    match buf r with
    | None => r
    | Some json0 =>
        let '(c, json1, ev) :=
          check_json json_tokener_parse json_object_to_json_string
            (extract_ok o) (option_map c_str (data json0)) json0 in
        if (c <? 0)%Z
        then mk_outcome (- EINVAL)%Z (Some json1) (events r ++ ev)
        else mk_outcome err (Some json1) (events r ++ ev)
    end.

(** What [http_signin] and [http_fetch] do with the outcome [r] of their
    [fetch_url] call. *)
Definition checked (o : oracle) (r : outcome) : outcome :=
  if (ret r <? 0)%Z then r
  else
    match buf r with
    | None => r
    | Some json0 =>
        let '(c, json1, ev) :=
          check_json json_tokener_parse json_object_to_json_string
            (extract_ok o) (option_map c_str (data json0)) json0 in
        if (c <? 0)%Z
        then mk_outcome (- EINVAL)%Z (Some json1) (events r ++ ev)
        else mk_outcome (ret r) (Some json1) (events r ++ ev)
    end.

(** ** The poll *)

(** Struct used to fetch data from cloud and send to THING *)
Record to_fetch := mk_to_fetch {
  proto_sock : Z;
  uuid : string;
  token : string;
  proto_watch_cb : Z;         (* the callback's address *)
  user_data : Z
}.

(** The [gboolean] result tells GLib whether to keep the timer. *)
Definition proto_poll (o : oracle) (g : globals) (d : to_fetch)
  : bool * list event :=
  let json := mk_json_raw None 0 in
  let r := http_fetch o g (proto_sock d) (uuid d) (token d) (Some json) in
  if negb (ret r =? 0)%Z then
    (true,
     events r ++ [log_error "signin(): %s(%d)" [AErr (- ret r); AInt (- ret r)]])
  else
    let json1 := match buf r with Some j => j | None => json end in
    (true, events r ++ [watch_cb (proto_watch_cb d) json1 (user_data d)]).

End Operations.

(** ** The watch on the GLib main loop

    The loop is single-threaded: it runs one callback at a time, keeps a
    source whose callback returns [TRUE] and drops one whose callback
    returns [FALSE]; [g_source_remove] drops a source from outside.  The
    model holds the live [to_fetch] blocks by address, the two kinds of
    source [proto_register_watch] attaches, and a history of what ran. *)

Record timeout_source := mk_timeout {
  t_id : nat;
  t_seconds : Z;
  t_data : nat                  (* user_data: address of the to_fetch *)
}.

Record io_source := mk_io {
  w_id : nat;
  w_fd : Z;
  w_data : nat
}.

Record main_loop := mk_main_loop {
  blocks : list (nat * to_fetch);
  next_block : nat;
  timeouts : list timeout_source;
  io_watches : list io_source;
  next_source : nat;
  history : list event
}.

Definition empty_loop : main_loop := mk_main_loop [] 1 [] [] 1 [].

Fixpoint find_block (p : nat) (bs : list (nat * to_fetch)) : option to_fetch :=
  match bs with
  | [] => None
  | (q, d) :: rest => if (q =? p)%nat then Some d else find_block p rest
  end.

Definition drop_block (p : nat) (bs : list (nat * to_fetch))
  : list (nat * to_fetch) :=
  filter (fun b => negb (fst b =? p)%nat) bs.

Fixpoint find_timeout (id : nat) (ts : list timeout_source)
  : option timeout_source :=
  match ts with
  | [] => None
  | t :: rest => if (t_id t =? id)%nat then Some t else find_timeout id rest
  end.

Fixpoint find_io (id : nat) (ws : list io_source) : option io_source :=
  match ws with
  | [] => None
  | w :: rest => if (w_id w =? id)%nat then Some w else find_io id rest
  end.

Definition drop_timeout (id : nat) (ts : list timeout_source) :=
  filter (fun t => negb (t_id t =? id)%nat) ts.

Definition drop_io (id : nat) (ws : list io_source) :=
  filter (fun w => negb (w_id w =? id)%nat) ws.

(** Watch or poll the cloud to changes in the device.  The two [memcpy]s
    copy 37 and 41 bytes, which is the whole string and its terminator for
    a uuid of at most 36 characters and a token of at most 40: for those
    the stored credentials are the caller's strings, as here. *)
Definition proto_register_watch (proto_sock : Z) (uuid token : string)
    (proto_watch_cb : Z) (user_data : Z) (l : main_loop) : nat * main_loop :=
  let p := next_block l in
  let fetch_data := mk_to_fetch proto_sock uuid token proto_watch_cb user_data in
  let gsource := next_source l in
  (gsource,
   mk_main_loop
     ((p, fetch_data) :: blocks l)
     (S p)
     (mk_timeout gsource 10 p :: timeouts l)
     (mk_io (S gsource) proto_sock p :: io_watches l)
     (S (S gsource))
     (history l)).

(** [g_free (fetch_watch); return FALSE;] *)
Definition http_hup_cb (p : nat) (l : main_loop) : bool * main_loop :=
  (false,
   mk_main_loop (drop_block p (blocks l)) (next_block l) (timeouts l)
     (io_watches l) (next_source l) (history l ++ [g_free p])).

Definition record_events (ev : list event) (l : main_loop) : main_loop :=
  mk_main_loop (blocks l) (next_block l) (timeouts l) (io_watches l)
    (next_source l) (history l ++ ev).

Definition without_timeout (id : nat) (l : main_loop) : main_loop :=
  mk_main_loop (blocks l) (next_block l) (drop_timeout id (timeouts l))
    (io_watches l) (next_source l) (history l).

Definition without_io (id : nat) (l : main_loop) : main_loop :=
  mk_main_loop (blocks l) (next_block l) (timeouts l)
    (drop_io id (io_watches l)) (next_source l) (history l).

(** What the loop is told from outside. *)
Inductive loop_input :=
| timer_fires (id : nat) (o : oracle)   (* the interval of source [id] elapsed *)
| channel_down (id : nat)               (* HUP, NVAL or ERR on watch [id] *)
| source_remove (id : nat).             (* the owner calls g_source_remove *)

Section MainLoop.

Variable json_tokener_parse : option string -> json_object.
Variable json_object_to_json_string : json_object -> string.
Variable g : globals.

(** A timer whose [user_data] is no longer a live block still has its
    callback run: the history records the call.  What [proto_poll] reads
    from freed memory is undefined in C, so nothing further is derived
    from it. *)
Definition loop_step (l : main_loop) (i : loop_input) : main_loop :=
  match i with
  | timer_fires id o =>
      match find_timeout id (timeouts l) with
      | None => l
      | Some t =>
          let l1 := record_events [dispatch "proto_poll" (t_data t)] l in
          match find_block (t_data t) (blocks l) with
          | None => l1
          | Some d =>
              let '(keep, ev) :=
                proto_poll json_tokener_parse json_object_to_json_string o g d in
              let l2 := record_events ev l1 in
              if keep then l2 else without_timeout id l2
          end
      end
  | channel_down id =>
      match find_io id (io_watches l) with
      | None => l
      | Some w =>
          let l1 := record_events [dispatch "http_hup_cb" (w_data w)] l in
          let '(keep, l2) := http_hup_cb (w_data w) l1 in
          if keep then l2 else without_io id l2
      end
  | source_remove id => without_io id (without_timeout id l)
  end.

Definition run (l : main_loop) (inputs : list loop_input) : main_loop :=
  fold_left loop_step inputs l.

End MainLoop.

(** ** Reading a history *)

Definition is_parse (e : event) : bool :=
  match e with tokener_parse _ => true | _ => false end.

(** The handles given to [curl_easy_perform], in order. *)
Fixpoint performed (ev : list event) : list CURL :=
  match ev with
  | [] => []
  | curl_perform ch :: rest => ch :: performed rest
  | _ :: rest => performed rest
  end.


(** Calls of [callback] on [handle] that the history shows after the
    handle was freed. *)
Fixpoint calls_after_free (callback : string) (handle : nat) (freed : bool)
    (ev : list event) : nat :=
  match ev with
  | [] => 0
  | g_free p :: rest =>
      calls_after_free callback handle (freed || (p =? handle)%nat) rest
  | dispatch c p :: rest =>
      (if freed && String.eqb c callback && (p =? handle)%nat then 1 else 0)
      + calls_after_free callback handle freed rest
  | _ :: rest => calls_after_free callback handle freed rest
  end.

Fixpoint count_free (handle : nat) (ev : list event) : nat :=
  match ev with
  | [] => 0
  | g_free p :: rest => (if (p =? handle)%nat then 1 else 0) + count_free handle rest
  | _ :: rest => count_free handle rest
  end.

(** ** Fixtures

    Inputs for the closed examples: a tokener that knows the four bodies
    used below and answers [NULL] to every other text, and a printer. *)

Definition dq : string := String (ascii_of_nat 34) EmptyString.

Definition body_one_device : string :=
  "{" +++ dq +++ "devices" +++ dq +++ ":[{" +++ dq +++ "a" +++ dq +++ ":1}]}".
Definition body_no_device : string :=
  "{" +++ dq +++ "devices" +++ dq +++ ":[]}".
Definition body_two_devices : string :=
  "{" +++ dq +++ "devices" +++ dq +++ ":[{},{}]}".
Definition body_devices_object : string :=
  "{" +++ dq +++ "devices" +++ dq +++ ":{}}".

Definition device_a1 : json_object := jobject [("a", jint 1)].

Definition sample_tokener (json_str : option string) : json_object :=
  match json_str with
  | None => jnull
  | Some s =>
      if String.eqb s body_one_device then jobject [("devices", jarray [device_a1])]
      else if String.eqb s body_no_device then jobject [("devices", jarray [])]
      else if String.eqb s body_two_devices
           then jobject [("devices", jarray [jobject []; jobject []])]
      else if String.eqb s body_devices_object
           then jobject [("devices", jobject [])]
      else jnull
  end.

Definition fmt_d (i : Z) : string := NilZero.string_of_int (Z.to_int i).

(** A compact printer for the examples whose statements hold for every
    printer.  It is not json-c's: see [json_object_to_json_string_spaced].
    Strings are printed without escapes. *)
Fixpoint sample_printer (jso : json_object) : string :=
  match jso with
  | jnull => "null"
  | jboolean b => if b then "true" else "false"
  | jdouble text => text
  | jint i => fmt_d i
  | jstring s => dq +++ s +++ dq
  | jarray elems =>
      "[" +++
      (fix items (l : list json_object) : string :=
         match l with
         | [] => ""
         | [e] => sample_printer e
         | e :: rest => sample_printer e +++ "," +++ items rest
         end) elems +++ "]"
  | jobject members =>
      "{" +++
      (fix fields (l : list (string * json_object)) : string :=
         match l with
         | [] => ""
         | [(k, v)] => dq +++ k +++ dq +++ ":" +++ sample_printer v
         | (k, v) :: rest =>
             dq +++ k +++ dq +++ ":" +++ sample_printer v +++ "," +++ fields rest
         end) members +++ "}"
  end.

Definition empty_buf : json_raw_t := mk_json_raw None 0.

Definition chunk (s : string) : delivery :=
  mk_delivery (list_ascii_of_string s) true.

(** A server that answers [code] with [body], delivered in one piece. *)
Definition answers (code : Z) (body : string) : oracle :=
  mk_oracle true [chunk body] CURLE_OK CURLE_OK code true.

(** A server that answers [code] with no body at all. *)
Definition answers_empty (code : Z) : oracle :=
  mk_oracle true [] CURLE_OK CURLE_OK code true.

(** libcurl refusing the handle before any transfer, with its code [rc]. *)
Definition refuses (rc : Z) : oracle :=
  mk_oracle true [] rc CURLE_OK 0 true.

Definition sample_globals : globals :=
  mk_globals 0 3000 "localhost:3000" "localhost:3000/devices" "localhost:3000/data".

Definition sample_uuid : string := "3c4c9a42-1d6b-4f0e-9a71-5b2e8d7f6a10".
Definition sample_token : string := "0123456789abcdef0123456789abcdef01234567".

(** The operations of [proto_http] that send a credential. *)
Inductive credential_op :=
| op_signin | op_rmnode | op_schema | op_data | op_setdata | op_fetch.

Definition call_op (parse : option string -> json_object)
    (print : json_object -> string) (op : credential_op) (o : oracle)
    (g : globals) (sock : Z) (uuid token : string) (jreq : option string)
    (json : option json_raw_t) : outcome :=
  match op with
  | op_signin => http_signin parse print o g sock uuid token json
  | op_rmnode => http_rmnode o g sock uuid token json
  | op_schema => http_schema o g sock uuid token jreq json
  | op_data => http_data o g sock uuid token jreq json
  | op_setdata => http_setdata o g sock uuid token jreq json
  | op_fetch => http_fetch parse print o g sock uuid token json
  end.

(** One request on a buffer that earlier requests have used. *)
Record call := mk_call {
  c_oracle : oracle;
  c_sock : Z;
  c_action : option string;
  c_json : option string;
  c_uuid : option string;
  c_token : option string;
  c_request : string
}.

Definition request_on (json : json_raw_t) (c : call) : json_raw_t :=
  match buf (fetch_url (c_oracle c) (c_sock c) (c_action c) (c_json c)
               (c_uuid c) (c_token c) (Some json) (Some (c_request c))) with
  | Some json1 => json1
  | None => json
  end.

Definition successive_requests (calls : list call) (json : json_raw_t)
  : json_raw_t :=
  fold_left request_on calls json.

(** The buffer points at a block whose byte at index [size] is the
    terminator. *)
Definition nul_terminated (json : json_raw_t) : Prop :=
  exists blk, data json = Some blk /\ nth_error blk (size json) = Some NUL.

(** What a transfer leaves in a buffer that was reset before it: nothing
    when the write callback never ran, else the chunks in order and a
    terminator. *)
Definition refilled (ds : list delivery) : json_raw_t :=
  match ds with
  | [] => mk_json_raw None 0
  | _ =>
      let body := List.concat (map contents ds) in
      mk_json_raw (Some (body ++ [NUL])) (List.length body)
  end.

Definition is_log (e : event) : bool :=
  match e with
  | log_info _ _ | log_error _ _ => true
  | _ => false
  end.

(** The buffer holds [acc] and its terminator, or nothing yet. *)
Definition holds (acc : list ascii) (json : json_raw_t) : Prop :=
  (acc = [] /\ json = mk_json_raw None 0) \/
  json = mk_json_raw (Some (acc ++ [NUL])) (List.length acc).

(** The handle [fetch_url] gives to [curl_easy_perform], if it gets that
    far. *)
Definition requested (o : oracle) (sockfd : Z)
    (action json uuid token : option string) (fetch : option json_raw_t)
    (request : option string) : list CURL :=
  match request, fetch with
  | Some r, Some _ =>
      if curl_init_ok o then
        [ {| customrequest := upcase (strncpy (REQUEST_SIZE + 1) r);
             url := action;
             httpheader := auth_headers uuid token ++ json_headers json;
             postfields := json;
             useragent := "libcurl-agent/1.0";
             timeout := CURL_OP_TIMEOUT;
             followlocation := 1;
             maxredirs := 1;
             noprogress := 1;
             opensocketdata := if (sockfd >? 0)%Z then Some sockfd else None |} ]
      else []
  | _, _ => []
  end.

(** What each operation of [call_op] hands to [fetch_url]. *)
Definition op_method (op : credential_op) : string :=
  match op with
  | op_signin | op_fetch => "GET"
  | op_rmnode => "DELETE"
  | op_schema | op_setdata => "PUT"
  | op_data => "POST"
  end.

Definition op_base (op : credential_op) (g : globals) : string :=
  match op with
  | op_data => data_uri g
  | _ => device_uri g
  end.

Definition op_body (op : credential_op) (jreq : option string) : option string :=
  match op with
  | op_schema | op_data | op_setdata => jreq
  | _ => None
  end.

(** ** A transfer that succeeds

    Everything the outside can do right during one [fetch_url]: libcurl
    gives a handle, every growth of the buffer succeeds, the transfer and
    [curl_easy_getinfo] report [CURLE_OK], and the status is 200 or 201. *)
Definition ok_transfer (o : oracle) : Prop :=
  curl_init_ok o = true /\
  Forall (fun d => grow_ok d = true) (deliveries o) /\
  perform_code o = CURLE_OK /\
  getinfo_code o = CURLE_OK /\
  (response_code o = 200 \/ response_code o = 201)%Z.

(** The body of a response, as the bytes libcurl delivered. *)
Definition body_of (o : oracle) : list ascii :=
  List.concat (map contents (deliveries o)).

Definition is_lower (c : ascii) : bool :=
  (97 <=? nat_of_ascii c)%nat && (nat_of_ascii c <=? 122)%nat.

Fixpoint has_lower (s : string) : bool :=
  match s with
  | EmptyString => false
  | String c rest => is_lower c || has_lower rest
  end.

(** ** A session on the main loop

    What a program does with the loop over time: it registers watches and
    the loop is told of timers, channel conditions and removals. *)
Inductive loop_action :=
| act_register (proto_sock : Z) (uuid token : string) (proto_watch_cb user_data : Z)
| act_input (i : loop_input).

Section Session.

Variable json_tokener_parse : option string -> json_object.
Variable json_object_to_json_string : json_object -> string.
Variable g : globals.

Definition act (l : main_loop) (a : loop_action) : main_loop :=
  match a with
  | act_register sock uuid token cb ctx =>
      snd (proto_register_watch sock uuid token cb ctx l)
  | act_input i =>
      loop_step json_tokener_parse json_object_to_json_string g l i
  end.

Definition session (acts : list loop_action) : main_loop :=
  fold_left act acts empty_loop.

End Session.

(** What keeps a handle from being freed twice: the hang-up watches have
    distinct ids and distinct handles, none of their handles is freed yet,
    and no handle was freed more than once. *)
Definition watches_sound (l : main_loop) : Prop :=
  NoDup (map w_id (io_watches l)) /\
  NoDup (map w_data (io_watches l)) /\
  (forall w, In w (io_watches l) ->
     w_id w < next_source l /\ w_data w < next_block l /\
     count_free (w_data w) (history l) = 0) /\
  (forall p, next_block l <= p -> count_free p (history l) = 0) /\
  (forall p, count_free p (history l) <= 1).

(** ** The gateway's entry point (main.c) *)

Module Main.

Definition EXIT_SUCCESS : Z := 0.
Definition EXIT_FAILURE : Z := 1.

(** [struct settings] is declared in manager.h, outside this repository's
    sources: these are the fields main.c assigns. *)
Record settings := mk_settings {
  proto : string;
  tty : option string;
  host : option string;
  port : Z;
  uuid : option string;
  token : option string
}.

Inductive main_event :=
| LOG_INFO (fmt : string) (args : list log_arg)
| LOG_ERROR (fmt : string) (args : list log_arg)
| manager_start_call (s : settings)
| setuid_call (uid : Z)
| signal_call (signum handler : string)
| g_main_loop_run
| manager_stop_call
| print_help                 (* the usage text GLib prints for --help *)
| exit_call (status : Z).

(** The file system and allocator as [load_config] meets them: [fopen_r]
    gives the bytes of a file that can be opened for reading. *)
Record file_system := mk_file_system {
  fopen_r : string -> option (list ascii);
  malloc_ok : bool;
  read_complete : bool
}.

Definition LONG_MAX : Z := 9223372036854775807.

(** Conversion to [int]: the value modulo 2^32 that lies in the range of
    [int], as gcc defines the conversion of a [long] that does not fit. *)
Definition to_int (z : Z) : Z :=
  ((z + 2147483648) mod 4294967296 - 2147483648)%Z.

(** Conversion to [size_t]. *)
Definition to_size_t (z : Z) : Z := (z mod 18446744073709551616)%Z.

(** [ftell (fl)] after [fseek (fl, 0, SEEK_END)]: the size of the file, or
    -1 when it does not fit a [long]. *)
Definition ftell_end (bytes : list ascii) : Z :=
  let n := Z.of_nat (List.length bytes) in
  if (n <=? LONG_MAX)%Z then n else (-1)%Z.

(** [fread (buffer, size, 1, fl)] from the start of the file: the number
    of whole items read, which is 0 for an item of size 0 and for an item
    the file is too short for. *)
Definition fread_items (fs : file_system) (bytes : list ascii) (size : Z)
  : nat :=
  if (size =? 0)%Z then 0
  else if (size <=? Z.of_nat (List.length bytes))%Z
       then (if read_complete fs then 1 else 0)
       else 0.

(** The result is the buffer, [None] for [NULL].  [length] is an [int]
    that receives the [long] of [ftell]; [length + 1] is an [int] made a
    [size_t] by the product with [sizeof (char)], which is 1; the [length]
    given to [fread] is made a [size_t] as well.  C leaves two sizes
    undefined: [length = INT_MAX], where [length + 1] overflows, and
    [length = -1], where [fread] is handed a block of no bytes.  The
    definition wraps around there, and the properties of [load_config]
    leave both out. *)
Definition load_config (fs : file_system) (file : string)
  : option (list ascii) * list main_event :=
  match fopen_r fs file with
  | None => (None, [LOG_ERROR "Failed to open file: %s" [AStr (Some file)]])
  | Some bytes =>
      let length := to_int (ftell_end bytes) in
      match realloc (malloc_ok fs) None
              (Z.to_nat (to_size_t (to_int (length + 1)))) with
      | Some buffer =>
          if negb (fread_items fs bytes (to_size_t length) =? 1)%nat
          then (None, [])
          else
            let buffer :=
              memcpy buffer 0 bytes (Z.to_nat (to_size_t length)) in
            let buffer := store buffer (Z.to_nat length) NUL in
            (Some buffer, [])
      | None => (None, [])
      end
  end.

Section Config.

(** json-c, as in [check_json]; [json_object_get_string] may return
    [NULL]. *)
Variable json_tokener_parse : option string -> json_object.
Variable json_object_get_string : json_object -> option string.
Variable json_object_get_int : json_object -> Z.

(** [manager_start] of manager.c, outside this repository's sources. *)
Variable manager_start : settings -> Z.

Definition set_host (h : option string) (s : settings) : settings :=
  mk_settings (proto s) (tty s) h (port s) (uuid s) (token s).

Definition set_port (p : Z) (s : settings) : settings :=
  mk_settings (proto s) (tty s) (host s) p (uuid s) (token s).

Definition set_credentials (u t : option string) (s : settings) : settings :=
  mk_settings (proto s) (tty s) (host s) (port s) u t.

(** Every [goto done] is a return of [-EINVAL] with the settings as they
    are at that point. *)
Definition parse_config (config : option string) (st : settings)
  : Z * settings :=
  match json_tokener_parse config with
  | jnull => ((- EINVAL)%Z, st)
  | jobj =>
    match json_object_object_get_ex jobj "cloud" with
    | None => ((- EINVAL)%Z, st)
    | Some obj_cloud =>
      match json_object_object_get_ex obj_cloud "uuid" with
      | None => ((- EINVAL)%Z, st)
      | Some obj_uuid =>
        let uuid := json_object_get_string obj_uuid in
        match json_object_object_get_ex obj_cloud "token" with
        | None => ((- EINVAL)%Z, st)
        | Some obj_token =>
          let token := json_object_get_string obj_token in
          let with_host :=
            match host st with
            | None =>
                match json_object_object_get_ex obj_cloud "serverName" with
                | None => None
                | Some obj_tmp =>
                    Some (set_host (json_object_get_string obj_tmp) st)
                end
            | Some _ => Some st
            end in
          match with_host with
          | None => ((- EINVAL)%Z, st)
          | Some st1 =>
            let with_port :=
              if (port st1 =? 0)%Z then
                match json_object_object_get_ex obj_cloud "port" with
                | None => None
                | Some obj_tmp => Some (set_port (json_object_get_int obj_tmp) st1)
                end
              else Some st1 in
            match with_port with
            | None => ((- EINVAL)%Z, st1)
            | Some st2 => (0%Z, set_credentials uuid token st2)
            end
          end
        end
      end
    end
  end.

(** What [main] works with once [g_option_context_parse] has returned:
    the outcome of the parsing (an error message, or the option
    variables), the file system, what [setuid] answers, and whether the
    main loop is ever quit. *)
Record invocation := mk_invocation {
  options_error : option string;
  opt_cfg : option string;
  opt_host : option string;
  opt_port : Z;
  opt_proto : string;
  opt_tty : option string;
  files : file_system;
  setuid_rc : Z;
  loop_quits : bool
}.

(** [main] in the runs in which [g_option_context_parse] returns; the run
    in which it does not is in [program] below.  The result is [None]
    when [g_main_loop_run] never returns. *)
Definition main (inv : invocation) : option Z * list main_event :=
  let ev0 := [LOG_INFO "KNOT Gateway\n" []] in
  match options_error inv with
  | Some message =>
      (Some EXIT_FAILURE,
       ev0 ++ [LOG_ERROR "Invalid arguments: %s\n" [AStr (Some message)]])
  | None =>
    match opt_cfg inv with
    | None =>
        (Some EXIT_FAILURE,
         ev0 ++ [LOG_ERROR "Missing KNOT configuration file!\n" []])
    | Some cfg =>
      let '(json_str, ev1) := load_config (files inv) cfg in
      match json_str with
      | None => (Some (- ENOENT)%Z, ev0 ++ ev1)
      | Some buffer =>
        let settings0 :=
          mk_settings "http" (opt_tty inv) (opt_host inv) (opt_port inv)
            None None in
        let '(err, settings1) := parse_config (Some (c_str buffer)) settings0 in
        if (err <? 0)%Z then (Some EXIT_FAILURE, ev0 ++ ev1)
        else
          let err := manager_start settings1 in
          let ev2 := ev0 ++ ev1 ++ [manager_start_call settings1] in
          if (err <? 0)%Z then
            (Some EXIT_FAILURE,
             ev2 ++ [LOG_ERROR "start(): %s (%d)\n" [AErr (- err); AInt (- err)]])
          else
            let ev3 :=
              ev2 ++ [setuid_call 65534;
                      LOG_INFO "Set user to nobody: %d\n" [AInt (setuid_rc inv)];
                      signal_call "SIGTERM" "sig_term";
                      signal_call "SIGINT" "sig_term";
                      signal_call "SIGPIPE" "SIG_IGN";
                      g_main_loop_run] in
            if loop_quits inv then
              (Some EXIT_SUCCESS,
               ev3 ++ [manager_stop_call; LOG_INFO "Exiting\n" []])
            else (None, ev3)
      end
    end
  end.

(** The command line as [g_option_context_parse] treats it.  [main] leaves
    GLib's help enabled, so for [--help] (and [-?], [--help-all]) the call
    prints the usage and calls [exit (0)] itself: it does not return to
    [main].  Every other command line gives [main] an [invocation]. *)
Inductive arguments :=
| asks_for_help
| parsed (inv : invocation).

(** How the process ends: [main] returns a status, [exit] is called with
    one before [main] returns, or the main loop runs for ever. *)
Inductive ending :=
| returns (status : Z)
| exits (status : Z)
| never_returns.

(** The whole of [main], the [--help] run included. *)
Definition program (args : arguments) : ending * list main_event :=
  match args with
  | asks_for_help =>
      (exits 0, [LOG_INFO "KNOT Gateway\n" []; print_help; exit_call 0])
  | parsed inv =>
      let '(r, ev) := main inv in
      (match r with Some status => returns status | None => never_returns end,
       ev)
  end.

End Config.

(** The settings [manager_start] was called with, in order. *)
Fixpoint started (ev : list main_event) : list settings :=
  match ev with
  | [] => []
  | manager_start_call s :: rest => s :: started rest
  | _ :: rest => started rest
  end.

End Main.

(** The text [http_signin] and [http_fetch] hand to [check_json] after a
    transfer in which every growth of the buffer succeeded: [json->data]
    read as a C string, [None] when it is [NULL]. *)
Definition received_text (o : oracle) : option string :=
  option_map c_str (data (refilled (deliveries o))).

(** ** json-c's printer

    json-c is a library outside this repository.  Its
    [json_object_to_json_string (obj)], the call [check_json] makes, is
    [json_object_to_json_string_ext (obj, JSON_C_TO_STRING_SPACED)]: a
    space follows [{], [[] and every comma, a space precedes the closing
    [}] and []], and the colon of a member is followed by a space.  Text
    is escaped as [json_escape_str] does, the slash included. *)






(** * Properties *)

(** ** Strings and blocks *)

Lemma substring_all (s : string) (n : nat) :
  String.length s <= n -> substring 0 n s = s.
Proof.
  revert n; induction s as [|c s IH]; intros [|n] H; simpl in *;
    try reflexivity; try lia.
  f_equal. apply IH. lia.
Qed.

Lemma substring_append (a b : string) (n : nat) :
  substring 0 (String.length a + n) (a +++ b) = a +++ substring 0 n b.
Proof.
  induction a as [|c a IH]; simpl.
  - reflexivity.
  - f_equal. exact IH.
Qed.

Lemma length_append (a b : string) :
  String.length (a +++ b) = String.length a + String.length b.
Proof. induction a as [|c a IH]; simpl; [reflexivity | now rewrite IH]. Qed.

Lemma append_assoc (a b c : string) : (a +++ b) +++ c = a +++ b +++ c.
Proof. induction a as [|x a IH]; simpl; [reflexivity | now rewrite IH]. Qed.

Lemma length_list_ascii (s : string) :
  List.length (list_ascii_of_string s) = String.length s.
Proof. induction s as [|c s IH]; simpl; [reflexivity | now rewrite IH]. Qed.

Lemma length_realloc (p : option (list ascii)) (n : nat) (blk : list ascii) :
  realloc true p n = Some blk -> List.length blk = n.
Proof.
  unfold realloc. intros H. injection H as <-.
  destruct p as [old|]; rewrite length_app, length_firstn, repeat_length;
    simpl; lia.
Qed.

Lemma realloc_true (p : option (list ascii)) (n : nat) :
  exists blk, realloc true p n = Some blk.
Proof. unfold realloc. eauto. Qed.

Lemma realloc_keeps (old : list ascii) (n : nat) (blk : list ascii) :
  realloc true (Some old) n = Some blk -> List.length old <= n ->
  firstn (List.length old) blk = old.
Proof.
  unfold realloc. intros H Hle. injection H as <-.
  rewrite (firstn_all2 old Hle).
  rewrite firstn_app, firstn_all, Nat.sub_diag. simpl. apply app_nil_r.
Qed.

(** Copying [n] bytes at offset [a] of a block of [a + n + 1] bytes and
    terminating it keeps the first [a] bytes and nothing else. *)
Lemma fill_block (blk src : list ascii) (a : nat) :
  List.length blk = a + List.length src + 1 ->
  store (memcpy blk a src (List.length src)) (a + List.length src) NUL
  = firstn a blk ++ src ++ [NUL].
Proof.
  intros Hlen. unfold store, memcpy.
  rewrite firstn_all.
  assert (Hx : List.length (firstn a blk ++ src) = a + List.length src).
  { rewrite length_app, length_firstn. lia. }
  rewrite (app_assoc (firstn a blk) src).
  rewrite firstn_app, Hx, Nat.sub_diag, firstn_O, app_nil_r.
  rewrite <- Hx at 1. rewrite firstn_all.
  rewrite skipn_app, Hx.
  rewrite (skipn_all2 (firstn a blk ++ src)) by lia.
  replace (S (a + List.length src) - (a + List.length src)) with 1 by lia.
  rewrite skipn_all2.
  - rewrite <- app_assoc. reflexivity.
  - rewrite length_skipn. lia.
Qed.

Lemma nth_error_terminator (body : list ascii) :
  nth_error (body ++ [NUL]) (List.length body) = Some NUL.
Proof.
  rewrite nth_error_app2 by lia. rewrite Nat.sub_diag. reflexivity.
Qed.

(** ** Status mapping *)

Lemma http2errno_cases (ehttp : Z) :
  http2errno ehttp =
  (if (ehttp =? 200) || (ehttp =? 201) then 0
   else if (ehttp =? 401) || (ehttp =? 403) then - EPERM
   else if ehttp =? 404 then - ENOENT
   else - EIO)%Z.
Proof.
  destruct ehttp as [|p|p]; try reflexivity.
  do 9 (destruct p as [p|p|]; try reflexivity).
Qed.

(** C2.  [http2errno] maps every status to one result: 200 and 201 to
    success (0), 401 and 403 to [-EPERM], 404 to [-ENOENT], and every
    other status to [-EIO]. *)
Theorem http2errno_total (ehttp : Z) :
  (ehttp = 200 \/ ehttp = 201 -> http2errno ehttp = 0)%Z /\
  (ehttp = 401 \/ ehttp = 403 -> http2errno ehttp = - EPERM)%Z /\
  (ehttp = 404 -> http2errno ehttp = - ENOENT)%Z /\
  (ehttp <> 200 -> ehttp <> 201 -> ehttp <> 401 -> ehttp <> 403 ->
   ehttp <> 404 -> http2errno ehttp = - EIO)%Z.
Proof.
  split; [|split; [|split]].
  - intros [-> | ->]; reflexivity.
  - intros [-> | ->]; reflexivity.
  - intros ->; reflexivity.
  - intros H1 H2 H3 H4 H5. rewrite http2errno_cases.
    apply Z.eqb_neq in H1, H2, H3, H4, H5.
    now rewrite H1, H2, H3, H4, H5.
Qed.

Lemma http2errno_total_witness :
  http2errno 200 = 0%Z /\ http2errno 403 = (- EPERM)%Z /\
  http2errno 404 = (- ENOENT)%Z /\ http2errno 500 = (- EIO)%Z.
Proof.
  split; [|split; [|split]].
  - apply (proj1 (http2errno_total 200)). left. reflexivity.
  - apply (proj1 (proj2 (http2errno_total 403))). right. reflexivity.
  - apply (proj1 (proj2 (proj2 (http2errno_total 404)))). reflexivity.
  - apply (proj2 (proj2 (proj2 (http2errno_total 500)))); discriminate.
Defined.

Lemma http2errno_range (ehttp : Z) :
  (http2errno ehttp = 0 \/ http2errno ehttp = - EPERM \/
   http2errno ehttp = - ENOENT \/ http2errno ehttp = - EIO)%Z.
Proof.
  rewrite http2errno_cases.
  destruct ((ehttp =? 200) || (ehttp =? 201))%Z; [now left|].
  destruct ((ehttp =? 401) || (ehttp =? 403))%Z; [now right; left|].
  destruct (ehttp =? 404)%Z; [now right; right; left | now right; right; right].
Qed.

(** ** Envelope check *)

Section CheckJson.

Variable parse : option string -> json_object.
Variable print : json_object -> string.

Lemma get_ex_not_null (jobj v : json_object) (key : string) :
  json_object_object_get_ex jobj key = Some v -> exists ms, jobj = jobject ms.
Proof. destruct jobj; simpl; try discriminate. eauto. Qed.


Lemma check_json_no_devices (ok : bool) (s : option string) (json : json_raw_t) :
  json_object_object_get_ex (parse s) "devices" = None ->
  check_json parse print ok s json = ((-1)%Z, json, [tokener_parse s]).
Proof.
  unfold check_json. intros H. rewrite H.
  destruct (parse s); reflexivity.
Qed.

Lemma check_json_not_array (ok : bool) (s : option string) (json : json_raw_t)
    (v : json_object) :
  json_object_object_get_ex (parse s) "devices" = Some v ->
  json_object_get_type v <> json_type_array ->
  check_json parse print ok s json = ((-1)%Z, json, [tokener_parse s]).
Proof.
  unfold check_json. intros H Hty. rewrite H.
  destruct (get_ex_not_null _ _ _ H) as [ms ->].
  destruct v; simpl; try reflexivity. now elim Hty.
Qed.

Lemma check_json_cardinality (ok : bool) (s : option string) (json : json_raw_t)
    (elems : list json_object) :
  json_object_object_get_ex (parse s) "devices" = Some (jarray elems) ->
  List.length elems <> 1 ->
  check_json parse print ok s json = ((-1)%Z, json, [tokener_parse s]).
Proof.
  unfold check_json. intros H Hn. rewrite H.
  destruct (get_ex_not_null _ _ _ H) as [ms ->].
  simpl. apply Nat.eqb_neq in Hn. unfold EXPECTED_RESPONSE_ARRAY_LENGTH.
  now rewrite Hn.
Qed.

Lemma check_json_single (s : option string) (json : json_raw_t)
    (e : json_object) :
  json_object_object_get_ex (parse s) "devices" = Some (jarray [e]) ->
  check_json parse print true s json =
    (0%Z, mk_json_raw (Some (bytes_of (print e))) (strlen (print e) + 1),
     [tokener_parse s]).
Proof.
  unfold check_json. intros H. rewrite H.
  destruct (get_ex_not_null _ _ _ H) as [ms ->].
  cbn -[realloc memcpy store bytes_of strlen Nat.add Nat.sub].
  destruct (realloc_true (data json) (strlen (print e) + 1)) as [blk Hblk].
  rewrite Hblk. apply length_realloc in Hblk.
  assert (Hsrc : List.length (bytes_of (print e)) = strlen (print e) + 1).
  { unfold bytes_of. rewrite length_app, length_list_ascii. reflexivity. }
  repeat f_equal.
  assert (Hm : memcpy blk 0 (bytes_of (print e)) (strlen (print e) + 1)
               = bytes_of (print e)).
  { unfold memcpy.
    rewrite (firstn_all2 (bytes_of (print e))) by lia.
    rewrite (skipn_all2 blk) by (simpl; lia).
    simpl. apply app_nil_r. }
  rewrite Hm. unfold store, bytes_of.
  replace (strlen (print e) + 1 - 1)
    with (List.length (list_ascii_of_string (print e)))
    by (rewrite length_list_ascii; unfold strlen; lia).
  rewrite firstn_app, firstn_all, Nat.sub_diag, firstn_O, app_nil_r.
  rewrite skipn_all2; [reflexivity|].
  rewrite length_app. simpl. lia.
Qed.

Lemma check_json_enomem (s : option string) (json : json_raw_t)
    (e : json_object) :
  json_object_object_get_ex (parse s) "devices" = Some (jarray [e]) ->
  check_json parse print false s json =
    ((- ENOMEM)%Z, mk_json_raw None (size json),
     [tokener_parse s; log_error "Not enough memory" []]).
Proof.
  unfold check_json. intros H. rewrite H.
  destruct (get_ex_not_null _ _ _ H) as [ms ->]. reflexivity.
Qed.

End CheckJson.




(** ** Histories *)

Lemma performed_app (a b : list event) :
  performed (a ++ b) = performed a ++ performed b.
Proof.
  induction a as [|e a IH]; simpl; [reflexivity|].
  destruct e; simpl; now rewrite IH.
Qed.


Lemma performed_logs (l : list event) :
  forallb is_log l = true -> performed l = [].
Proof.
  induction l as [|e l IH]; simpl; [reflexivity|].
  destruct e; simpl; try discriminate; exact IH.
Qed.


Lemma parses_logs (l : list event) :
  forallb is_log l = true -> filter is_parse l = [].
Proof.
  induction l as [|e l IH]; simpl; [reflexivity|].
  destruct e; simpl; try discriminate; exact IH.
Qed.

Lemma performed_perform (l : list CURL) : performed (map curl_perform l) = l.
Proof. induction l as [|c l IH]; simpl; [reflexivity | now rewrite IH]. Qed.


Lemma parses_perform (l : list CURL) : filter is_parse (map curl_perform l) = [].
Proof. induction l as [|c l IH]; simpl; [reflexivity | exact IH]. Qed.

(** ** The write callback and the transfer *)

Lemma write_cb_logs (ok : bool) (c : list ascii) (sz n : nat) (json : json_raw_t) :
  forallb is_log (snd (write_cb ok c sz n json)) = true.
Proof.
  unfold write_cb. destruct (realloc ok (data json) _); reflexivity.
Qed.

Lemma deliver_logs (ds : list delivery) (json : json_raw_t) :
  forallb is_log (snd (deliver ds json)) = true.
Proof.
  revert json; induction ds as [|d ds IH]; intros json; simpl; [reflexivity|].
  pose proof (write_cb_logs (grow_ok d) (contents d) 1
                (List.length (contents d)) json) as Hw.
  destruct (write_cb _ _ _ _ json) as [[n json1] ev1]. simpl in Hw.
  destruct (n =? _)%nat; [|exact Hw].
  specialize (IH json1). destruct (deliver ds json1) as [[ok json2] ev2].
  simpl in *. rewrite forallb_app, Hw, IH. reflexivity.
Qed.

Lemma write_cb_appends (acc c : list ascii) (json : json_raw_t) :
  holds acc json ->
  write_cb true c 1 (List.length c) json =
    (List.length c,
     mk_json_raw (Some ((acc ++ c) ++ [NUL])) (List.length (acc ++ c)), []).
Proof.
  intros Hj. unfold write_cb. rewrite Nat.mul_1_l.
  destruct (realloc_true (data json) (size json + List.length c + 1))
    as [blk Hblk].
  rewrite Hblk. pose proof (length_realloc _ _ _ Hblk) as Hlen.
  rewrite fill_block by exact Hlen.
  destruct Hj as [[-> ->] | ->]; simpl in *.
  - reflexivity.
  - rewrite length_app, <- app_assoc. repeat f_equal.
    apply realloc_keeps in Hblk; [|rewrite length_app; simpl; lia].
    rewrite length_app in Hblk. simpl in Hblk.
    replace (firstn (List.length acc) blk)
      with (firstn (List.length acc) (firstn (List.length acc + 1) blk))
      by (rewrite firstn_firstn; f_equal; lia).
    rewrite Hblk, firstn_app, firstn_all, Nat.sub_diag. simpl. apply app_nil_r.
Qed.

Lemma deliver_all (ds : list delivery) :
  Forall (fun d => grow_ok d = true) ds ->
  forall acc json, holds acc json -> ds <> [] ->
  deliver ds json =
    (true,
     mk_json_raw (Some ((acc ++ List.concat (map contents ds)) ++ [NUL]))
       (List.length (acc ++ List.concat (map contents ds))),
     []).
Proof.
  induction 1 as [|d ds Hd Hds IH]; intros acc json Hj Hne; [now elim Hne|].
  simpl. rewrite Hd, (write_cb_appends acc (contents d) json Hj).
  rewrite Nat.eqb_refl.
  destruct ds as [|d' ds'].
  - simpl. rewrite app_nil_r. reflexivity.
  - rewrite (IH (acc ++ contents d)); [|now right|discriminate].
    rewrite <- !app_assoc. reflexivity.
Qed.

Lemma deliver_refilled (ds : list delivery) :
  Forall (fun d => grow_ok d = true) ds ->
  deliver ds (mk_json_raw None 0) = (true, refilled ds, []).
Proof.
  intros H. destruct ds as [|d ds]; [reflexivity|].
  rewrite (deliver_all _ H []); [reflexivity | now left | discriminate].
Qed.

(** ** [fetch_url] *)

Section FetchUrl.

Variables (o : oracle) (sockfd : Z) (action json uuid token : option string).
Variables (fetch : option json_raw_t) (request : option string).

Local Abbreviation r := (fetch_url o sockfd action json uuid token fetch request).

(** A history of [fetch_url] is log lines around at most one transfer. *)
Lemma fetch_url_shape :
  exists pre post,
    events r
    = pre ++ map curl_perform
               (requested o sockfd action json uuid token fetch request)
          ++ post
    /\ forallb is_log pre = true /\ forallb is_log post = true.
Proof.
  unfold fetch_url, requested.
  destruct request as [rq|]; [destruct fetch as [f|]|];
    try (exists [log_error "Invalid argument!" []], []; now repeat split).
  destruct (curl_init_ok o); simpl negb; cbv iota.
  2:{ eexists _, []. simpl. rewrite app_nil_r. split; [reflexivity|].
      now split. }
  unfold curl_easy_perform.
  pose proof (deliver_logs (deliveries o) (mk_json_raw None 0)) as Hd.
  destruct (deliver (deliveries o) (mk_json_raw None 0)) as [[ok f2] ev].
  simpl in Hd.
  match goal with
  | |- context [curl_perform ?c :: ev] => set (ch := c)
  end.
  set (ev0 := [log_info "action: %s" [AStr action]]).
  set (ev1 := [log_info "HTTP(%s): %s" _]).
  set (ev2 := match uuid with Some _ => _ | None => _ end).
  set (ev3 := match json with Some _ => _ | None => _ end).
  assert (H2 : forallb is_log ev2 = true)
    by (subst ev2; destruct uuid, token; reflexivity).
  assert (H3 : forallb is_log ev3 = true)
    by (subst ev3; destruct json; reflexivity).
  assert (Hpre : forallb is_log (ev0 ++ ev1 ++ ev2 ++ ev3) = true)
    by (rewrite !forallb_app, H2, H3; reflexivity).
  assert (Hsplit : forall tail,
    (ev0 ++ ev1 ++ ev2 ++ ev3 ++ curl_perform ch :: ev) ++ tail
    = (ev0 ++ ev1 ++ ev2 ++ ev3) ++ map curl_perform [ch] ++ (ev ++ tail)).
  { intros tail. simpl map. rewrite <- !app_assoc. simpl. reflexivity. }
  destruct (negb ((if ok then perform_code o else CURLE_WRITE_ERROR) =? CURLE_OK)%Z).
  { eexists _, _. simpl events. split; [apply Hsplit|].
    split; [exact Hpre|]. rewrite forallb_app, Hd. reflexivity. }
  destruct (negb (getinfo_code o =? CURLE_OK)%Z).
  { eexists _, _. simpl events. split; [apply Hsplit|].
    split; [exact Hpre|]. rewrite forallb_app, Hd. reflexivity. }
  eexists _, _. simpl events. split; [apply Hsplit|].
  split; [exact Hpre|]. rewrite !forallb_app, Hd.
  destruct (data f2); reflexivity.
Qed.

Lemma fetch_url_performed :
  performed (events r)
  = requested o sockfd action json uuid token fetch request.
Proof.
  destruct fetch_url_shape as (pre & post & -> & Hpre & Hpost).
  rewrite !performed_app, performed_perform.
  rewrite (performed_logs _ Hpre), (performed_logs _ Hpost).
  simpl. apply app_nil_r.
Qed.

Lemma fetch_url_no_parse : filter is_parse (events r) = [].
Proof.
  destruct fetch_url_shape as (pre & post & -> & Hpre & Hpost).
  rewrite !filter_app, parses_perform.
  now rewrite (parses_logs _ Hpre), (parses_logs _ Hpost).
Qed.


(** Past its guard, [fetch_url] returns [-ENOMEM], [-EIO] or a mapped
    status. *)
Lemma fetch_url_ret :
  request <> None -> fetch <> None ->
  (ret r = - ENOMEM \/ ret r = - EIO \/ ret r = http2errno (response_code o))%Z.
Proof.
  unfold fetch_url. intros Hr Hf.
  destruct request as [rq|]; [|now elim Hr].
  destruct fetch as [f|]; [|now elim Hf].
  destruct (curl_init_ok o); simpl negb; cbv iota; [|now left].
  destruct (curl_easy_perform o _ _) as [[rcode f2] ev].
  destruct (negb (rcode =? CURLE_OK)%Z); [now right; left|].
  destruct (negb (getinfo_code o =? CURLE_OK)%Z); [now right; left|].
  now right; right.
Qed.

Lemma fetch_url_ret_nonpos : (ret r <= 0)%Z.
Proof.
  unfold fetch_url.
  destruct request as [rq|]; [|simpl; unfold EINVAL; lia].
  destruct fetch as [f|]; [|simpl; unfold EINVAL; lia].
  destruct (curl_init_ok o); simpl negb; cbv iota;
    [|simpl; unfold ENOMEM; lia].
  destruct (curl_easy_perform o _ _) as [[rcode f2] ev].
  destruct (negb (rcode =? CURLE_OK)%Z); [simpl; unfold EIO; lia|].
  destruct (negb (getinfo_code o =? CURLE_OK)%Z); [simpl; unfold EIO; lia|].
  simpl.
  destruct (http2errno_range (response_code o)) as [E | [E | [E | E]]];
    rewrite E; unfold EPERM, ENOENT, EIO; lia.
Qed.

Lemma fetch_url_guard :
  request = None \/ fetch = None ->
  r = mk_outcome (- EINVAL)%Z fetch [log_error "Invalid argument!" []].
Proof.
  unfold fetch_url.
  intros [-> | ->]; [reflexivity|]. destruct request; reflexivity.
Qed.

Lemma fetch_url_buf (f : json_raw_t) :
  fetch = Some f ->
  buf r = Some (if curl_init_ok o
                then match request with
                     | Some _ => snd (fst (deliver (deliveries o) (mk_json_raw None 0)))
                     | None => f
                     end
                else f).
Proof.
  unfold fetch_url. intros ->.
  destruct request as [rq|]; [|now destruct (curl_init_ok o)].
  destruct (curl_init_ok o); simpl negb; cbv iota; [|reflexivity].
  unfold curl_easy_perform.
  destruct (deliver (deliveries o) (mk_json_raw None 0)) as [[ok f2] ev].
  simpl.
  destruct (negb ((if ok then perform_code o else CURLE_WRITE_ERROR) =? CURLE_OK)%Z);
    [reflexivity|].
  destruct (negb (getinfo_code o =? CURLE_OK)%Z); reflexivity.
Qed.

End FetchUrl.

(** C5, as the code has it.  [fetch_url] returns [-EINVAL] whenever the
    method or the response buffer is [NULL]; it then logs one line, leaves
    the buffer untouched and never reaches [curl_easy_perform].  A [NULL]
    URL is not part of the guard: with a method and a buffer the result is
    never [-EINVAL]; the call goes on to [curl_easy_init], returns
    [-ENOMEM] without any transfer when that fails, and otherwise hands
    libcurl one request whose URL is the one given, [NULL] included. *)
Theorem fetch_url_invalid_argument (o : oracle) (sockfd : Z)
    (action json uuid token : option string) (fetch : option json_raw_t)
    (request : option string) :
  let r := fetch_url o sockfd action json uuid token fetch request in
  (request = None \/ fetch = None ->
     r = mk_outcome (- EINVAL)%Z fetch [log_error "Invalid argument!" []] /\
     performed (events r) = []) /\
  (request <> None -> fetch <> None ->
     ret r <> (- EINVAL)%Z /\
     (curl_init_ok o = true ->
      exists ch, performed (events r) = [ch] /\ url ch = action) /\
     (curl_init_ok o = false ->
      ret r = (- ENOMEM)%Z /\ performed (events r) = [] /\ buf r = fetch)).
Proof.
  cbv zeta. split.
  - intros H. rewrite (fetch_url_guard _ _ _ _ _ _ _ _ H). now split.
  - intros Hr Hf. split; [|split].
    + destruct (fetch_url_ret o sockfd action json uuid token fetch request
                  Hr Hf) as [E | [E | E]]; rewrite E; try discriminate.
      destruct (http2errno_range (response_code o)) as [E' | [E' | [E' | E']]];
        rewrite E'; discriminate.
    + intros Hi. rewrite fetch_url_performed. unfold requested.
      destruct request as [rq|]; [|now elim Hr].
      destruct fetch as [f|]; [|now elim Hf].
      rewrite Hi. eexists. split; reflexivity.
    + intros Hi. rewrite fetch_url_performed. unfold requested, fetch_url.
      destruct request as [rq|]; [|now elim Hr].
      destruct fetch as [f|]; [|now elim Hf].
      rewrite Hi. repeat split.
Qed.

Lemma fetch_url_invalid_argument_witness :
  fetch_url (answers 200 "{}") 4 (Some "localhost:3000/devices") None None None
    (Some empty_buf) None
  = mk_outcome (- EINVAL)%Z (Some empty_buf) [log_error "Invalid argument!" []]
  /\ ret (fetch_url (answers 200 "{}") 4 None None None None
            (Some empty_buf) (Some "GET")) <> (- EINVAL)%Z
  /\ (exists ch,
        performed (events (fetch_url (answers 200 "{}") 4 None None None None
                             (Some empty_buf) (Some "GET"))) = [ch] /\
        url ch = None)
  /\ ret (fetch_url (mk_oracle false [] CURLE_OK CURLE_OK 200 true) 4 None
            None None None (Some empty_buf) (Some "GET")) = (- ENOMEM)%Z.
Proof.
  split; [|split; [|split]].
  - apply (proj1 (fetch_url_invalid_argument (answers 200 "{}") 4
                    (Some "localhost:3000/devices") None None None
                    (Some empty_buf) None)).
    left. reflexivity.
  - apply (proj2 (fetch_url_invalid_argument (answers 200 "{}") 4
                    None None None None (Some empty_buf) (Some "GET")));
      discriminate.
  - refine (proj1 (proj2 (proj2 (fetch_url_invalid_argument (answers 200 "{}")
              4 None None None None (Some empty_buf) (Some "GET")) _ _)) _);
      try discriminate. reflexivity.
  - refine (proj1 (proj2 (proj2 (proj2 (fetch_url_invalid_argument
              (mk_oracle false [] CURLE_OK CURLE_OK 200 true) 4 None None
              None None (Some empty_buf) (Some "GET")) _ _)) _));
      try discriminate. reflexivity.
Defined.

(** A call with a method and a buffer but no URL: the handle is given to
    [curl_easy_perform], which refuses it (3 is [CURLE_URL_MALFORMAT]), and
    the result is [-EIO]. *)
Lemma fetch_url_null_url :
  let r := fetch_url (refuses 3) 4 None None None None
             (Some empty_buf) (Some "GET") in
  ret r = (- EIO)%Z /\ ret r <> (- EINVAL)%Z /\ performed (events r) <> [].
Proof. cbv zeta. split; [reflexivity | split; discriminate]. Qed.

(** ** Credentials and requests *)

Lemma auth_uuid_header (u : string) :
  snprintf (MESHBLU_AUTH_UUID_SIZE + MESHBLU_UUID_SIZE) (MESHBLU_AUTH_UUID +++ u)
  = MESHBLU_AUTH_UUID +++ substring 0 MESHBLU_UUID_SIZE u.
Proof.
  unfold snprintf.
  change (MESHBLU_AUTH_UUID_SIZE + MESHBLU_UUID_SIZE - 1)
    with (String.length MESHBLU_AUTH_UUID + MESHBLU_UUID_SIZE).
  apply substring_append.
Qed.

Lemma auth_token_header (t : string) :
  snprintf (MESHBLU_AUTH_TOKEN_SIZE + MESHBLU_TOKEN_SIZE) (MESHBLU_AUTH_TOKEN +++ t)
  = MESHBLU_AUTH_TOKEN +++ substring 0 MESHBLU_TOKEN_SIZE t.
Proof.
  unfold snprintf.
  change (MESHBLU_AUTH_TOKEN_SIZE + MESHBLU_TOKEN_SIZE - 1)
    with (String.length MESHBLU_AUTH_TOKEN + MESHBLU_TOKEN_SIZE).
  apply substring_append.
Qed.

Lemma auth_headers_truncate (u t : string) :
  auth_headers (Some u) (Some t)
  = [ MESHBLU_AUTH_UUID +++ substring 0 MESHBLU_UUID_SIZE u;
      MESHBLU_AUTH_TOKEN +++ substring 0 MESHBLU_TOKEN_SIZE t ].
Proof.
  unfold auth_headers. now rewrite auth_uuid_header, auth_token_header.
Qed.

Lemma mk_uri_truncates (base uuid : string) :
  mk_uri base uuid = base +++ "/" +++ substring 0 MESHBLU_UUID_SIZE uuid.
Proof.
  unfold mk_uri, snprintf, strlen.
  replace (String.length base + 2 + MESHBLU_UUID_SIZE - 1)
    with (String.length base + (1 + MESHBLU_UUID_SIZE)) by lia.
  rewrite substring_append. reflexivity.
Qed.

Lemma check_json_events (parse : option string -> json_object)
    (print : json_object -> string) (ok : bool) (s : option string)
    (json : json_raw_t) :
  snd (check_json parse print ok s json) = [tokener_parse s] \/
  snd (check_json parse print ok s json)
  = [tokener_parse s; log_error "Not enough memory" []].
Proof.
  unfold check_json.
  destruct (parse s); try (now left);
    (destruct (json_object_object_get_ex _ _); [|now left]);
    (destruct (negb _ || negb _); [now left|]);
    (destruct (realloc ok _ _); [now left | now right]).
Qed.

Section Checked.

Variable parse : option string -> json_object.
Variable print : json_object -> string.

Lemma http_signin_checked (o : oracle) (g : globals) (sock : Z)
    (uuid token : string) (json : option json_raw_t) :
  http_signin parse print o g sock uuid token json
  = checked parse print o
      (fetch_url o sock (Some (mk_uri (device_uri g) uuid)) None (Some uuid)
         (Some token) json (Some "GET")).
Proof. reflexivity. Qed.

Lemma http_fetch_checked (o : oracle) (g : globals) (sock : Z)
    (uuid token : string) (json : option json_raw_t) :
  http_fetch parse print o g sock uuid token json
  = checked parse print o
      (fetch_url o sock (Some (mk_uri (device_uri g) uuid)) None (Some uuid)
         (Some token) json (Some "GET")).
Proof. reflexivity. Qed.

Lemma checked_performed (o : oracle) (r : outcome) :
  performed (events (checked parse print o r)) = performed (events r).
Proof.
  unfold checked. destruct (ret r <? 0)%Z; [reflexivity|].
  destruct (buf r) as [j|]; [|reflexivity].
  pose proof (check_json_events parse print (extract_ok o)
                (option_map c_str (data j)) j) as He.
  destruct (check_json parse print _ _ j) as [[c j1] ev]. simpl in He.
  assert (performed ev = []) by (destruct He as [-> | ->]; reflexivity).
  destruct (c <? 0)%Z; simpl; rewrite performed_app, H; apply app_nil_r.
Qed.



End Checked.

Lemma call_op_performed (parse : option string -> json_object)
    (print : json_object -> string) (op : credential_op) (o : oracle)
    (g : globals) (sock : Z) (uuid token : string) (jreq : option string)
    (json : option json_raw_t) :
  performed (events (call_op parse print op o g sock uuid token jreq json))
  = requested o sock (Some (mk_uri (op_base op g) uuid)) (op_body op jreq)
      (Some uuid) (Some token) json (Some (op_method op)).
Proof.
  destruct op; simpl;
    rewrite ?http_signin_checked, ?http_fetch_checked, ?checked_performed;
    unfold http_rmnode, http_schema, http_data, http_setdata;
    apply fetch_url_performed.
Qed.

(** C4, as the code has it.  No operation checks the length of a
    credential.  For a uuid and a token of any length, each operation
    that sends them builds its request and hands it to
    [curl_easy_perform] (once libcurl has given a handle and the caller a
    buffer); the two headers carry the first 36 characters of the uuid and
    the first 40 of the token, and so does the URL for the uuid. *)
Theorem credential_length_unchecked (parse : option string -> json_object)
    (print : json_object -> string) (op : credential_op) (o : oracle)
    (g : globals) (sock : Z) (uuid token : string) (jreq : option string)
    (json : option json_raw_t) :
  curl_init_ok o = true -> json <> None ->
  exists ch,
    performed (events (call_op parse print op o g sock uuid token jreq json))
    = [ch] /\
    url ch = Some (op_base op g +++ "/" +++ substring 0 MESHBLU_UUID_SIZE uuid) /\
    firstn 2 (httpheader ch)
    = [ MESHBLU_AUTH_UUID +++ substring 0 MESHBLU_UUID_SIZE uuid;
        MESHBLU_AUTH_TOKEN +++ substring 0 MESHBLU_TOKEN_SIZE token ].
Proof.
  intros Hinit Hjson. rewrite call_op_performed.
  destruct json as [j|]; [|now elim Hjson].
  unfold requested. rewrite Hinit. eexists. split; [reflexivity|].
  cbn [url httpheader].
  rewrite mk_uri_truncates, auth_headers_truncate. split; reflexivity.
Qed.

Lemma credential_length_unchecked_witness :
  exists ch,
    performed (events (call_op sample_tokener sample_printer op_schema
                         (answers 200 "{}") sample_globals 4 "abc" "xyz"
                         (Some "{}") (Some empty_buf)))
    = [ch] /\
    url ch = Some (op_base op_schema sample_globals +++ "/"
                   +++ substring 0 MESHBLU_UUID_SIZE "abc") /\
    firstn 2 (httpheader ch)
    = [ MESHBLU_AUTH_UUID +++ substring 0 MESHBLU_UUID_SIZE "abc";
        MESHBLU_AUTH_TOKEN +++ substring 0 MESHBLU_TOKEN_SIZE "xyz" ].
Proof.
  apply (credential_length_unchecked sample_tokener sample_printer op_schema
           (answers 200 "{}") sample_globals 4 "abc" "xyz" (Some "{}")
           (Some empty_buf)).
  - reflexivity.
  - discriminate.
Defined.

(** A three-character uuid and token given to [http_rmnode]: the request
    goes out with both headers and the server's 200 comes back as 0. *)
Lemma short_credential_is_sent :
  let r := http_rmnode (answers 200 "{}") sample_globals 4 "abc" "xyz"
             (Some empty_buf) in
  String.length "abc" <> MESHBLU_UUID_SIZE /\
  String.length "xyz" <> MESHBLU_TOKEN_SIZE /\
  ret r = 0%Z /\ ret r <> (- EINVAL)%Z /\
  performed (events r)
  = [ {| customrequest := "DELETE";
         url := Some "localhost:3000/devices/abc";
         httpheader := ["meshblu_auth_uuid: abc"; "meshblu_auth_token: xyz"];
         postfields := None;
         useragent := "libcurl-agent/1.0";
         timeout := 30;
         followlocation := 1;
         maxredirs := 1;
         noprogress := 1;
         opensocketdata := Some 4%Z |} ].
Proof.
  cbv zeta. repeat apply conj; try discriminate; reflexivity.
Qed.

(** C9.  With a uuid of 36 characters and a token of 40, what
    [http_signin] and [http_fetch] hand to [curl_easy_perform] is one GET
    of [device_uri/uuid] with exactly the two headers
    [meshblu_auth_uuid: uuid] and [meshblu_auth_token: token] and no body
    (nothing is handed over when [curl_easy_init] fails or the buffer is
    [NULL]); and the [device_uri] a probe leaves is [host_uri/devices]. *)
Theorem signin_fetch_request (parse : option string -> json_object)
    (print : json_object -> string) (o : oracle) (g : globals) (sock : Z)
    (uuid token : string) (json : option json_raw_t) :
  String.length uuid = MESHBLU_UUID_SIZE ->
  String.length token = MESHBLU_TOKEN_SIZE ->
  let ch :=
    {| customrequest := "GET";
       url := Some (device_uri g +++ "/" +++ uuid);
       httpheader := [ "meshblu_auth_uuid: " +++ uuid;
                       "meshblu_auth_token: " +++ token ];
       postfields := None;
       useragent := "libcurl-agent/1.0";
       timeout := 30;
       followlocation := 1;
       maxredirs := 1;
       noprogress := 1;
       opensocketdata := if (sock >? 0)%Z then Some sock else None |} in
  let sent :=
    if curl_init_ok o then match json with Some _ => [ch] | None => [] end
    else [] in
  performed (events (http_signin parse print o g sock uuid token json)) = sent /\
  performed (events (http_fetch parse print o g sock uuid token json)) = sent /\
  forall dns addr0 host port,
    let g' := snd (fst (http_probe dns addr0 host port)) in
    device_uri g' = host_uri g' +++ "/devices".
Proof.
  intros Hu Ht ch sent.
  assert (Hreq :
    requested o sock (Some (mk_uri (device_uri g) uuid)) None (Some uuid)
      (Some token) json (Some "GET") = sent).
  { subst sent ch. unfold requested.
    destruct json as [j|]; [|now destruct (curl_init_ok o)].
    destruct (curl_init_ok o); [|reflexivity].
    rewrite mk_uri_truncates, auth_headers_truncate.
    rewrite (substring_all uuid), (substring_all token)
      by (rewrite ?Hu, ?Ht; apply Nat.le_refl).
    reflexivity. }
  split; [|split].
  - rewrite <- Hreq.
    apply (call_op_performed parse print op_signin o g sock uuid token None json).
  - rewrite <- Hreq.
    apply (call_op_performed parse print op_fetch o g sock uuid token None json).
  - intros dns addr0 host port. unfold http_probe.
    destruct host; [destruct (h_addr dns)|]; reflexivity.
Qed.

Lemma signin_fetch_request_witness :
  performed (events (http_signin sample_tokener sample_printer
                       (answers 200 body_one_device) sample_globals 4
                       sample_uuid sample_token (Some empty_buf)))
  = [ {| customrequest := "GET";
         url := Some ("localhost:3000/devices/" +++ sample_uuid);
         httpheader := [ "meshblu_auth_uuid: " +++ sample_uuid;
                         "meshblu_auth_token: " +++ sample_token ];
         postfields := None;
         useragent := "libcurl-agent/1.0";
         timeout := 30;
         followlocation := 1;
         maxredirs := 1;
         noprogress := 1;
         opensocketdata := Some 4%Z |} ].
Proof.
  apply (proj1 (signin_fetch_request sample_tokener sample_printer
                  (answers 200 body_one_device) sample_globals 4
                  sample_uuid sample_token (Some empty_buf)
                  eq_refl eq_refl)).
Defined.

(** ** Where the envelope is checked *)

(** C3.  [http_signin] and [http_fetch] run the same transfer [t].  When
    [t] fails they return it as it is and json-c is never called; when
    [t] succeeds and [check_json] rejects the buffer they return
    [-EINVAL], which is not the transfer's 0.  [http_mknode],
    [http_rmnode], [http_schema], [http_setdata] (and [http_data]) are
    their [fetch_url] call and nothing more: json-c is never called. *)
Theorem envelope_only_on_reads (parse : option string -> json_object)
    (print : json_object -> string) (o : oracle) (g : globals) (sock : Z)
    (uuid token : string) (jreq : option string) (json : option json_raw_t) :
  let t := fetch_url o sock (Some (mk_uri (device_uri g) uuid)) None
             (Some uuid) (Some token) json (Some "GET") in
  let signin := http_signin parse print o g sock uuid token json in
  let fetch := http_fetch parse print o g sock uuid token json in
  ((ret t < 0)%Z ->
     signin = t /\ fetch = t /\
     filter is_parse (events signin) = [] /\
     filter is_parse (events fetch) = []) /\
  (forall j, ret t = 0%Z -> buf t = Some j ->
     (fst (fst (check_json parse print (extract_ok o)
                  (option_map c_str (data j)) j)) < 0)%Z ->
     ret signin = (- EINVAL)%Z /\ ret fetch = (- EINVAL)%Z /\
     ret signin <> ret t) /\
  (http_mknode o g sock jreq json
   = fetch_url o sock (Some (device_uri g)) jreq None None json (Some "POST") /\
   http_rmnode o g sock uuid token json
   = fetch_url o sock (Some (mk_uri (device_uri g) uuid)) None
       (Some uuid) (Some token) json (Some "DELETE") /\
   http_schema o g sock uuid token jreq json
   = fetch_url o sock (Some (mk_uri (device_uri g) uuid)) jreq
       (Some uuid) (Some token) json (Some "PUT") /\
   http_setdata o g sock uuid token jreq json
   = fetch_url o sock (Some (mk_uri (device_uri g) uuid)) jreq
       (Some uuid) (Some token) json (Some "PUT") /\
   http_data o g sock uuid token jreq json
   = fetch_url o sock (Some (mk_uri (data_uri g) uuid)) jreq
       (Some uuid) (Some token) json (Some "POST")) /\
  (filter is_parse (events (http_mknode o g sock jreq json)) = [] /\
   filter is_parse (events (http_rmnode o g sock uuid token json)) = [] /\
   filter is_parse (events (http_schema o g sock uuid token jreq json)) = [] /\
   filter is_parse (events (http_setdata o g sock uuid token jreq json)) = [] /\
   filter is_parse (events (http_data o g sock uuid token jreq json)) = []).
Proof.
  intros t signin fetch.
  assert (Hsame : fetch = signin) by reflexivity.
  split; [|split; [|split]].
  - intros Hneg. apply Z.ltb_lt in Hneg.
    assert (Hs : signin = t).
    { subst signin. rewrite http_signin_checked. unfold checked. fold t.
      now rewrite Hneg. }
    rewrite Hsame, Hs. repeat split; apply fetch_url_no_parse.
  - intros j H0 Hbuf Hc. apply Z.ltb_lt in Hc.
    assert (Hs : ret signin = (- EINVAL)%Z).
    { subst signin. rewrite http_signin_checked. unfold checked. fold t.
      rewrite H0, Hbuf. simpl Z.ltb. cbv iota.
      destruct (check_json parse print _ _ j) as [[c j1] ev].
      simpl in Hc. now rewrite Hc. }
    rewrite Hsame, Hs, H0. repeat split. discriminate.
  - repeat split.
  - unfold http_mknode, http_rmnode, http_schema, http_setdata, http_data.
    repeat split; apply fetch_url_no_parse.
Qed.

Lemma envelope_only_on_reads_witness :
  (http_signin sample_tokener sample_printer (answers 404 "{}") sample_globals
     4 sample_uuid sample_token (Some empty_buf)
   = fetch_url (answers 404 "{}") 4
       (Some (mk_uri (device_uri sample_globals) sample_uuid)) None
       (Some sample_uuid) (Some sample_token) (Some empty_buf) (Some "GET")) /\
  ret (http_fetch sample_tokener sample_printer (answers 200 body_no_device)
         sample_globals 4 sample_uuid sample_token (Some empty_buf))
  = (- EINVAL)%Z.
Proof.
  split.
  - apply (proj1 (envelope_only_on_reads sample_tokener sample_printer
                    (answers 404 "{}") sample_globals 4 sample_uuid
                    sample_token None (Some empty_buf))).
    reflexivity.
  - apply (proj1 (proj2 (envelope_only_on_reads sample_tokener sample_printer
                    (answers 200 body_no_device) sample_globals 4 sample_uuid
                    sample_token None (Some empty_buf)))
             (mk_json_raw (Some (bytes_of body_no_device))
                (String.length body_no_device)));
      reflexivity.
Defined.

(** ** Reuse of a response buffer *)

(** C7, as the code has it.  A [fetch_url] that gets its handle from
    libcurl drops what the buffer held and resets it before the transfer:
    what the buffer holds afterwards is what the write callback built
    from this response on an empty buffer, whatever earlier requests left
    there.  When every growth of the buffer succeeds that is the body of
    this response alone: with at least one chunk delivered, the chunks in
    order followed by a terminator, and [size] is their length; with no
    chunk delivered, [data] is [NULL] and [size] is 0. *)
Theorem fetch_url_refills (calls : list call) (c : call) (json : json_raw_t) :
  curl_init_ok (c_oracle c) = true ->
  let ds := deliveries (c_oracle c) in
  let body := List.concat (map contents ds) in
  let after := successive_requests (calls ++ [c]) json in
  after = snd (fst (deliver ds (mk_json_raw None 0))) /\
  (Forall (fun d => grow_ok d = true) ds ->
     after = refilled ds /\
     (ds <> [] ->
        data after = Some (body ++ [NUL]) /\ size after = List.length body /\
        nul_terminated after) /\
     (ds = [] -> after = mk_json_raw None 0)).
Proof.
  intros Hinit ds body after.
  assert (Hafter : after = snd (fst (deliver ds (mk_json_raw None 0)))).
  { subst after. unfold successive_requests.
    rewrite fold_left_app. simpl. unfold request_on at 1.
    now rewrite (fetch_url_buf _ _ _ _ _ _ _ _ _ eq_refl), Hinit. }
  split; [exact Hafter|]. intros Hgrow.
  rewrite Hafter, (deliver_refilled ds Hgrow). simpl snd.
  split; [reflexivity|]. split.
  - intros Hne. subst body. destruct ds as [|d ds']; [now elim Hne|].
    unfold refilled. simpl data. simpl size.
    repeat split. eexists. split; [reflexivity|].
    apply nth_error_terminator.
  - intros ->. reflexivity.
Qed.

Lemma fetch_url_refills_witness :
  successive_requests
    ([mk_call (answers 200 "first response") 4 (Some "localhost:3000/devices")
        None None None "GET"]
     ++ [mk_call (answers 200 "second") 4 (Some "localhost:3000/devices")
           None None None "GET"])
    empty_buf
  = mk_json_raw (Some (bytes_of "second")) 6.
Proof.
  refine (proj1 (proj2 (fetch_url_refills
    [mk_call (answers 200 "first response") 4 (Some "localhost:3000/devices")
       None None None "GET"]
    (mk_call (answers 200 "second") 4 (Some "localhost:3000/devices")
       None None None "GET")
    empty_buf _) _)).
  - reflexivity.
  - repeat constructor.
Defined.

(** A 200 whose body is empty: the write callback never runs, the buffer
    is left with [data = NULL], and there is no terminator to find. *)
Lemma empty_response_has_no_terminator :
  let r := fetch_url (answers_empty 200) 4 (Some "localhost:3000/devices")
             None None None (Some (mk_json_raw (Some (bytes_of "old")) 3))
             (Some "GET") in
  ret r = 0%Z /\ buf r = Some (mk_json_raw None 0) /\
  ~ nul_terminated (mk_json_raw None 0).
Proof.
  cbv zeta. repeat apply conj; try reflexivity.
  intros [blk [H _]]. discriminate.
Qed.

(** ** The poll and the watch *)





(** C6, the run that breaks it.  A watch is registered, the socket hangs
    up, then the timer fires.  [http_hup_cb] has freed the handle (once)
    and removed only its own source, so the timer is still attached and
    GLib calls [proto_poll] on the freed handle.  The other way round, the
    owner removing the timer frees nothing: the handle stays allocated
    and the hang-up watch stays attached. *)
Theorem released_handle_is_polled (parse : option string -> json_object)
    (print : json_object -> string) (g : globals) (sock : Z)
    (uuid token : string) (cb ctx : Z) (o : oracle) :
  let registered := proto_register_watch sock uuid token cb ctx empty_loop in
  let id := fst registered in
  let l := run parse print g (snd registered)
             [channel_down (S id); timer_fires id o] in
  let l' := run parse print g (snd registered) [source_remove id] in
  (count_free 1 (history l) = 1 /\
   find_block 1 (blocks l) = None /\
   find_timeout id (timeouts l) <> None /\
   history l = [dispatch "http_hup_cb" 1; g_free 1; dispatch "proto_poll" 1] /\
   calls_after_free "proto_poll" 1 false (history l) = 1) /\
  (count_free 1 (history l') = 0 /\
   find_block 1 (blocks l') <> None /\
   find_io (S id) (io_watches l') <> None).
Proof.
  cbv zeta. simpl. repeat split; discriminate.
Qed.

(** ** Close *)

(** C10.  [http_close] does nothing: the set of open descriptors is the
    one it was given, and a socket that [http_connect] returned is still
    open after [http_close] on it. *)
Theorem http_close_noop (sock : Z) (fds : list Z) (n : sockets) (g : globals) :
  http_close sock fds = fds /\
  (socket_fd n <> -1 -> 0 <= connect_rc n ->
   fst (fst (http_connect n g fds)) = socket_fd n /\
   In (socket_fd n)
      (http_close (socket_fd n) (snd (fst (http_connect n g fds)))))%Z.
Proof.
  split; [reflexivity|].
  intros Hs Hc. unfold http_connect, http_close.
  apply Z.eqb_neq in Hs. rewrite Hs.
  assert (Hlt : (connect_rc n <? 0)%Z = false) by (apply Z.ltb_ge; exact Hc).
  rewrite Hlt. simpl. split; [reflexivity | now left].
Qed.

Lemma http_close_noop_witness :
  http_close 4 [4%Z; 3%Z] = [4%Z; 3%Z] /\
  In 4%Z (http_close 4
            (snd (fst (http_connect (mk_sockets 4 0 0 0) sample_globals [3%Z])))).
Proof.
  split.
  - apply (proj1 (http_close_noop 4 [4%Z; 3%Z] (mk_sockets 4 0 0 0)
                    sample_globals)).
  - apply (proj2 (http_close_noop 4 [3%Z] (mk_sockets 4 0 0 0) sample_globals)).
    + discriminate.
    + discriminate.
Defined.

(** * Further properties *)

(** ** Results of [fetch_url] *)

Lemma http2errno_zero (ehttp : Z) :
  http2errno ehttp = 0%Z <-> (ehttp = 200 \/ ehttp = 201)%Z.
Proof.
  rewrite http2errno_cases. split.
  - destruct (ehttp =? 200)%Z eqn:E1; [left; now apply Z.eqb_eq|].
    destruct (ehttp =? 201)%Z eqn:E2; [right; now apply Z.eqb_eq|].
    simpl. destruct ((ehttp =? 401) || (ehttp =? 403))%Z; [discriminate|].
    destruct (ehttp =? 404)%Z; discriminate.
  - intros [-> | ->]; reflexivity.
Qed.

(** X1.  [fetch_url] returns 0 exactly when it was given a method and a
    buffer, libcurl gave a handle, every call of the write callback
    returned its chunk's size, the transfer and [curl_easy_getinfo]
    reported [CURLE_OK], and the status is 200 or 201. *)
Theorem fetch_url_succeeds_iff (o : oracle) (sockfd : Z)
    (action json uuid token : option string) (fetch : option json_raw_t)
    (request : option string) :
  ret (fetch_url o sockfd action json uuid token fetch request) = 0%Z <->
  request <> None /\ fetch <> None /\ curl_init_ok o = true /\
  fst (fst (deliver (deliveries o) (mk_json_raw None 0))) = true /\
  perform_code o = CURLE_OK /\ getinfo_code o = CURLE_OK /\
  (response_code o = 200 \/ response_code o = 201)%Z.
Proof.
  unfold fetch_url.
  destruct request as [rq|];
    [|split; [discriminate | intros [H _]; now elim H]].
  destruct fetch as [f|];
    [|split; [discriminate | intros [_ [H _]]; now elim H]].
  destruct (curl_init_ok o);
    [|split; [discriminate | intros (_ & _ & H & _); discriminate]].
  simpl negb. cbv iota. unfold curl_easy_perform.
  destruct (deliver (deliveries o) (mk_json_raw None 0)) as [[ok f2] ev].
  simpl fst.
  destruct ok.
  2:{ simpl. split; [discriminate | intros (_ & _ & _ & H & _); discriminate]. }
  destruct (perform_code o =? CURLE_OK)%Z eqn:Ep; simpl negb; cbv iota.
  2:{ simpl. split; [discriminate|]. intros (_ & _ & _ & _ & H & _).
      apply Z.eqb_neq in Ep. now elim Ep. }
  destruct (getinfo_code o =? CURLE_OK)%Z eqn:Eg; simpl negb; cbv iota.
  2:{ simpl. split; [discriminate|]. intros (_ & _ & _ & _ & _ & H & _).
      apply Z.eqb_neq in Eg. now elim Eg. }
  simpl ret. rewrite http2errno_zero.
  apply Z.eqb_eq in Ep, Eg.
  split.
  - intros H. repeat split; try discriminate; assumption.
  - intros (_ & _ & _ & _ & _ & _ & H). exact H.
Qed.

Lemma fetch_url_succeeds_iff_witness :
  ret (fetch_url (answers 201 "{}") 4 (Some "localhost:3000/devices")
         (Some "{}") None None (Some empty_buf) (Some "POST")) = 0%Z.
Proof.
  apply (proj2 (fetch_url_succeeds_iff (answers 201 "{}") 4
                  (Some "localhost:3000/devices") (Some "{}") None None
                  (Some empty_buf) (Some "POST"))).
  repeat split; try discriminate. right. reflexivity.
Defined.

Lemma fetch_url_status (o : oracle) (sockfd : Z)
    (action json uuid token : option string) (f : json_raw_t) (rq : string) :
  curl_init_ok o = true ->
  Forall (fun d => grow_ok d = true) (deliveries o) ->
  perform_code o = CURLE_OK -> getinfo_code o = CURLE_OK ->
  ret (fetch_url o sockfd action json uuid token (Some f) (Some rq))
  = http2errno (response_code o) /\
  buf (fetch_url o sockfd action json uuid token (Some f) (Some rq))
  = Some (refilled (deliveries o)).
Proof.
  intros Hi Hg Hp Hc. unfold fetch_url. rewrite Hi. simpl negb. cbv iota.
  unfold curl_easy_perform. rewrite (deliver_refilled _ Hg), Hp, Hc.
  simpl. split; reflexivity.
Qed.

Lemma fetch_url_ok (o : oracle) (sockfd : Z)
    (action json uuid token : option string) (f : json_raw_t) (rq : string) :
  ok_transfer o ->
  ret (fetch_url o sockfd action json uuid token (Some f) (Some rq)) = 0%Z /\
  buf (fetch_url o sockfd action json uuid token (Some f) (Some rq))
  = Some (refilled (deliveries o)).
Proof.
  intros (Hi & Hg & Hp & Hc & Hs).
  destruct (fetch_url_status o sockfd action json uuid token f rq Hi Hg Hp Hc)
    as [Hr Hb].
  split; [|exact Hb]. rewrite Hr. now apply http2errno_zero.
Qed.

(** X3.  Whatever the status, a transfer that libcurl completes leaves the
    body of the response in the buffer: a 404 comes back as [-ENOENT]
    together with what the server said. *)
Theorem error_status_keeps_body (o : oracle) (sockfd : Z)
    (action json uuid token : option string) (f : json_raw_t) (rq : string) :
  curl_init_ok o = true ->
  Forall (fun d => grow_ok d = true) (deliveries o) ->
  perform_code o = CURLE_OK -> getinfo_code o = CURLE_OK ->
  let r := fetch_url o sockfd action json uuid token (Some f) (Some rq) in
  ret r = http2errno (response_code o) /\
  buf r = Some (refilled (deliveries o)) /\
  (deliveries o <> [] ->
   exists j, buf r = Some j /\ data j = Some (body_of o ++ [NUL]) /\
             size j = List.length (body_of o)).
Proof.
  intros Hi Hg Hp Hc r.
  destruct (fetch_url_status o sockfd action json uuid token f rq Hi Hg Hp Hc)
    as [Hr Hb].
  split; [exact Hr|]. split; [exact Hb|].
  intros Hne. exists (refilled (deliveries o)). split; [exact Hb|].
  unfold refilled, body_of. destruct (deliveries o); [now elim Hne|].
  split; reflexivity.
Qed.

Lemma error_status_keeps_body_witness :
  let r := fetch_url (answers 404 "no such device") 4
             (Some "localhost:3000/devices/x") None None None
             (Some empty_buf) (Some "GET") in
  ret r = (- ENOENT)%Z /\
  buf r = Some (mk_json_raw (Some (bytes_of "no such device")) 14).
Proof.
  cbv zeta.
  assert (Hg : Forall (fun d => grow_ok d = true)
                 (deliveries (answers 404 "no such device")))
    by (repeat constructor).
  destruct (error_status_keeps_body (answers 404 "no such device") 4
              (Some "localhost:3000/devices/x") None None None empty_buf "GET"
              eq_refl Hg eq_refl eq_refl)
    as (Hr & Hb & _).
  split; [exact Hr | exact Hb].
Defined.

Lemma fetch_url_range (o : oracle) (sockfd : Z)
    (action json uuid token : option string) (fetch : option json_raw_t)
    (request : option string) :
  let r := ret (fetch_url o sockfd action json uuid token fetch request) in
  (r = 0 \/ r = - EPERM \/ r = - ENOENT \/ r = - EIO \/ r = - ENOMEM \/
   r = - EINVAL)%Z.
Proof.
  cbv zeta.
  destruct request as [rq|]; [destruct fetch as [f|]|];
    try (simpl; now repeat right).
  destruct (fetch_url_ret o sockfd action json uuid token (Some f) (Some rq))
    as [E | [E | E]]; try discriminate; rewrite E.
  - now right; right; right; right; left.
  - now right; right; right; left.
  - destruct (http2errno_range (response_code o)) as [H | [H | [H | H]]];
      rewrite H; tauto.
Qed.

Lemma checked_ret (parse : option string -> json_object)
    (print : json_object -> string) (o : oracle) (r : outcome) :
  ret (checked parse print o r) = ret r \/
  ret (checked parse print o r) = (- EINVAL)%Z.
Proof.
  unfold checked. destruct (ret r <? 0)%Z; [now left|].
  destruct (buf r) as [j|]; [|now left].
  destruct (check_json parse print _ _ j) as [[c j1] ev].
  destruct (c <? 0)%Z; [now right | now left].
Qed.

(** X2.  The results a caller can see.  Every device operation returns 0,
    [-EPERM], [-ENOENT], [-EIO], [-ENOMEM] or [-EINVAL], and nothing
    else: never a positive value, never another [errno]. *)
Theorem operation_results (parse : option string -> json_object)
    (print : json_object -> string) (op : credential_op) (o : oracle)
    (g : globals) (sock : Z) (uuid token : string) (jreq : option string)
    (json : option json_raw_t) :
  let known r :=
    (r = 0 \/ r = - EPERM \/ r = - ENOENT \/ r = - EIO \/ r = - ENOMEM \/
     r = - EINVAL)%Z in
  known (ret (call_op parse print op o g sock uuid token jreq json)) /\
  known (ret (http_mknode o g sock jreq json)).
Proof.
  cbv zeta. split; [|apply fetch_url_range].
  destruct op; simpl;
    try (unfold http_rmnode, http_schema, http_data, http_setdata;
         apply fetch_url_range);
    rewrite ?http_signin_checked, ?http_fetch_checked;
    (destruct (checked_ret parse print o
                 (fetch_url o sock (Some (mk_uri (device_uri g) uuid)) None
                    (Some uuid) (Some token) json (Some "GET")))
       as [E | E]; rewrite E; [apply fetch_url_range | now repeat right]).
Qed.

(** ** When the buffer cannot grow *)

Lemma deliver_fail (pre : list delivery) (d : delivery) (post : list delivery) :
  Forall (fun d => grow_ok d = true) pre ->
  grow_ok d = false -> contents d <> [] ->
  forall acc json, holds acc json ->
  deliver (pre ++ d :: post) json =
    (false,
     mk_json_raw None (List.length (acc ++ List.concat (map contents pre))),
     [log_error "Not enough memory" []]).
Proof.
  intros Hpre Hd Hne. induction Hpre as [|d0 pre Hd0 Hpre IH];
    intros acc json Hj.
  - simpl. unfold write_cb. rewrite Hd. unfold realloc at 1. cbv iota.
    destruct (contents d) as [|c cs] eqn:Ec; [now elim Hne|].
    simpl. rewrite app_nil_r.
    destruct Hj as [[-> ->] | ->]; reflexivity.
  - simpl. rewrite Hd0, (write_cb_appends acc (contents d0) json Hj).
    rewrite Nat.eqb_refl.
    rewrite (IH (acc ++ contents d0)) by now right.
    rewrite <- app_assoc. reflexivity.
Qed.

(** X4.  When [realloc] fails in the write callback on a chunk that is not
    empty, the chunks after it are not delivered, [fetch_url] returns
    [-EIO], and the buffer is left with [data = NULL] while [size] still
    counts the bytes of the chunks stored before. *)
Theorem write_failure_aborts_transfer (o : oracle) (sockfd : Z)
    (action json uuid token : option string) (f : json_raw_t) (rq : string)
    (pre : list delivery) (d : delivery) (post : list delivery) :
  curl_init_ok o = true ->
  deliveries o = pre ++ d :: post ->
  Forall (fun d => grow_ok d = true) pre ->
  grow_ok d = false -> contents d <> [] ->
  let r := fetch_url o sockfd action json uuid token (Some f) (Some rq) in
  ret r = (- EIO)%Z /\
  buf r = Some (mk_json_raw None (List.length (List.concat (map contents pre)))).
Proof.
  intros Hi Hds Hpre Hd Hne r. subst r. unfold fetch_url.
  rewrite Hi. simpl negb. cbv iota. unfold curl_easy_perform.
  rewrite Hds, (deliver_fail pre d post Hpre Hd Hne [] (mk_json_raw None 0))
    by now left.
  simpl. split; reflexivity.
Qed.

Lemma write_failure_aborts_transfer_witness :
  let o := mk_oracle true
             [chunk "abc"; mk_delivery (list_ascii_of_string "def") false;
              chunk "ghi"] CURLE_OK CURLE_OK 200 true in
  let r := fetch_url o 4 (Some "localhost:3000/devices") None None None
             (Some empty_buf) (Some "GET") in
  ret r = (- EIO)%Z /\ buf r = Some (mk_json_raw None 3).
Proof.
  cbv zeta.
  refine (write_failure_aborts_transfer _ 4 (Some "localhost:3000/devices")
            None None None empty_buf "GET" [chunk "abc"]
            (mk_delivery (list_ascii_of_string "def") false) [chunk "ghi"]
            _ _ _ _ _).
  - reflexivity.
  - reflexivity.
  - repeat constructor.
  - reflexivity.
  - discriminate.
Defined.

(** ** Sign-in and fetch after a transfer that succeeds *)

Lemma c_str_terminated (body : list ascii) : c_str (body ++ [NUL]) = c_str body.
Proof.
  induction body as [|c body IH]; simpl; [reflexivity|].
  destruct (is_nul c); [reflexivity | now rewrite IH].
Qed.

Lemma c_str_text (body : list ascii) :
  Forall (fun c => c <> NUL) body -> c_str body = string_of_list_ascii body.
Proof.
  induction 1 as [|c body Hc Hb IH]; simpl; [reflexivity|].
  unfold is_nul. apply Ascii.eqb_neq in Hc. now rewrite Hc, IH.
Qed.

Lemma received_text_cases (o : oracle) :
  received_text o =
  match deliveries o with
  | [] => None
  | _ => Some (c_str (body_of o))
  end.
Proof.
  unfold received_text, refilled, body_of.
  destruct (deliveries o); [reflexivity|].
  simpl option_map. now rewrite c_str_terminated.
Qed.

Section AfterTransfer.

Variable parse : option string -> json_object.
Variable print : json_object -> string.
Variables (o : oracle) (g : globals) (sock : Z) (uuid token : string).
Variable f : json_raw_t.
Hypothesis Hok : ok_transfer o.

Local Abbreviation t :=
  (fetch_url o sock (Some (mk_uri (device_uri g) uuid)) None (Some uuid)
     (Some token) (Some f) (Some "GET")).

Lemma signin_after_transfer :
  http_signin parse print o g sock uuid token (Some f) =
  let '(c, json1, ev) :=
    check_json parse print (extract_ok o) (received_text o)
      (refilled (deliveries o)) in
  if (c <? 0)%Z
  then mk_outcome (- EINVAL)%Z (Some json1) (events t ++ ev)
  else mk_outcome 0%Z (Some json1) (events t ++ ev).
Proof.
  rewrite http_signin_checked. unfold checked.
  destruct (fetch_url_ok o sock (Some (mk_uri (device_uri g) uuid)) None
              (Some uuid) (Some token) f "GET" Hok) as [Hr Hb].
  rewrite Hr, Hb. reflexivity.
Qed.

Lemma signin_parses :
  filter is_parse (events (http_signin parse print o g sock uuid token (Some f)))
  = [tokener_parse (received_text o)].
Proof.
  rewrite signin_after_transfer.
  pose proof (check_json_events parse print (extract_ok o) (received_text o)
                (refilled (deliveries o))) as He.
  destruct (check_json parse print _ _ _) as [[c j1] ev]. simpl in He.
  assert (Hev : filter is_parse ev = [tokener_parse (received_text o)])
    by (destruct He as [-> | ->]; reflexivity).
  destruct (c <? 0)%Z; cbn [events];
    now rewrite filter_app, fetch_url_no_parse, Hev.
Qed.

Lemma check_json_rejects (ok : bool) (s : option string) (json : json_raw_t) :
  (forall e, json_object_object_get_ex (parse s) "devices" <> Some (jarray [e])) ->
  check_json parse print ok s json = ((-1)%Z, json, [tokener_parse s]).
Proof.
  intros Hn.
  destruct (json_object_object_get_ex (parse s) "devices") as [v|] eqn:E;
    [|now apply check_json_no_devices].
  destruct v as [| | | | |elems|];
    try (apply (check_json_not_array parse print ok s json _ E); discriminate).
  apply (check_json_cardinality parse print ok s json elems E).
  destruct elems as [|e [|e' rest]]; simpl; try lia.
  now elim (Hn e).
Qed.

End AfterTransfer.

(** X5.  What the parser is given.  After a transfer that succeeds with a
    body, [http_signin] and [http_fetch] call [json_tokener_parse] once,
    on the body up to its first NUL byte: a body without one is parsed
    whole, and whatever follows a NUL byte is never looked at. *)
Theorem signin_parses_body_text (parse : option string -> json_object)
    (print : json_object -> string) (o : oracle) (g : globals) (sock : Z)
    (uuid token : string) (f : json_raw_t) :
  ok_transfer o -> deliveries o <> [] ->
  filter is_parse (events (http_signin parse print o g sock uuid token (Some f)))
  = [tokener_parse (Some (c_str (body_of o)))] /\
  filter is_parse (events (http_fetch parse print o g sock uuid token (Some f)))
  = [tokener_parse (Some (c_str (body_of o)))] /\
  (Forall (fun c => c <> NUL) (body_of o) ->
   c_str (body_of o) = string_of_list_ascii (body_of o)) /\
  (forall a b, body_of o = a ++ NUL :: b -> c_str (body_of o) = c_str a).
Proof.
  intros Hok Hne.
  assert (Ht : received_text o = Some (c_str (body_of o))).
  { rewrite received_text_cases. destruct (deliveries o); [now elim Hne|].
    reflexivity. }
  assert (Hs := signin_parses parse print o g sock uuid token f Hok).
  rewrite Ht in Hs.
  split; [exact Hs|]. split; [exact Hs|]. split; [apply c_str_text|].
  intros a b ->. clear. induction a as [|c a IH]; simpl; [reflexivity|].
  destruct (is_nul c); [reflexivity | now rewrite IH].
Qed.

Lemma signin_parses_body_text_witness :
  filter is_parse
    (events (http_signin sample_tokener sample_printer
               (answers 200 body_one_device) sample_globals 4 sample_uuid
               sample_token (Some empty_buf)))
  = [tokener_parse (Some (c_str (body_of (answers 200 body_one_device))))].
Proof.
  refine (proj1 (signin_parses_body_text sample_tokener sample_printer
                   (answers 200 body_one_device) sample_globals 4 sample_uuid
                   sample_token empty_buf _ _)).
  - repeat split; try reflexivity; [repeat constructor | now left].
  - discriminate.
Defined.

(** X6.  A 200 or 201 without a body: the write callback never ran, so
    [json->data] is still [NULL], and that [NULL] is what [http_signin]
    and [http_fetch] pass to [json_tokener_parse]. *)
Theorem signin_empty_body_parses_null (parse : option string -> json_object)
    (print : json_object -> string) (o : oracle) (g : globals) (sock : Z)
    (uuid token : string) (f : json_raw_t) :
  ok_transfer o -> deliveries o = [] ->
  filter is_parse (events (http_signin parse print o g sock uuid token (Some f)))
  = [tokener_parse None] /\
  filter is_parse (events (http_fetch parse print o g sock uuid token (Some f)))
  = [tokener_parse None].
Proof.
  intros Hok He.
  assert (Hs := signin_parses parse print o g sock uuid token f Hok).
  rewrite received_text_cases, He in Hs. split; exact Hs.
Qed.

Lemma signin_empty_body_parses_null_witness :
  filter is_parse
    (events (http_signin sample_tokener sample_printer (answers_empty 200)
               sample_globals 4 sample_uuid sample_token (Some empty_buf)))
  = [tokener_parse None].
Proof.
  refine (proj1 (signin_empty_body_parses_null sample_tokener sample_printer
                   (answers_empty 200) sample_globals 4 sample_uuid
                   sample_token empty_buf _ _)).
  - repeat split; try reflexivity; [constructor | now left].
  - reflexivity.
Defined.

(** X7.  Sign-in end to end.  When the transfer succeeds, the text received
    parses to an object whose [devices] is an array of one element, and
    the block for the result can be allocated, [http_signin] and
    [http_fetch] return 0 and the buffer holds the printed form of that
    element in place of the response, with [size] counting its
    terminator. *)
Theorem signin_extracts_device (parse : option string -> json_object)
    (print : json_object -> string) (o : oracle) (g : globals) (sock : Z)
    (uuid token : string) (f : json_raw_t) (e : json_object) :
  ok_transfer o -> extract_ok o = true ->
  json_object_object_get_ex (parse (received_text o)) "devices"
  = Some (jarray [e]) ->
  let r := http_signin parse print o g sock uuid token (Some f) in
  ret r = 0%Z /\
  buf r = Some (mk_json_raw (Some (bytes_of (print e))) (strlen (print e) + 1)) /\
  http_fetch parse print o g sock uuid token (Some f) = r.
Proof.
  intros Hok Hx He r.
  assert (Hf : http_fetch parse print o g sock uuid token (Some f) = r)
    by reflexivity.
  split; [|split; [|exact Hf]]; subst r;
    rewrite (signin_after_transfer parse print o g sock uuid token f Hok), Hx;
    rewrite (check_json_single parse print _ _ e He); reflexivity.
Qed.

Lemma signin_extracts_device_witness :
  let r := http_signin sample_tokener sample_printer
             (answers 200 body_one_device) sample_globals 4 sample_uuid
             sample_token (Some empty_buf) in
  ret r = 0%Z /\
  buf r = Some (mk_json_raw
                  (Some (bytes_of (sample_printer device_a1)))
                  (strlen (sample_printer device_a1) + 1)).
Proof.
  cbv zeta.
  assert (Hok : ok_transfer (answers 200 body_one_device))
    by (repeat split; try reflexivity; [repeat constructor | now left]).
  destruct (signin_extracts_device sample_tokener sample_printer
              (answers 200 body_one_device) sample_globals 4 sample_uuid
              sample_token empty_buf device_a1 Hok eq_refl eq_refl)
    as (Hr & Hb & _).
  split; [exact Hr | exact Hb].
Defined.

(** X8.  Out of memory while extracting.  When the transfer succeeded and the
    envelope is right but [check_json] cannot allocate the result, the
    caller gets [-EINVAL], not [-ENOMEM], and the response is gone: the
    buffer is left with [data = NULL] and the [size] of the response. *)
Theorem signin_enomem_reported_as_einval
    (parse : option string -> json_object) (print : json_object -> string)
    (o : oracle) (g : globals) (sock : Z) (uuid token : string)
    (f : json_raw_t) (e : json_object) :
  ok_transfer o -> extract_ok o = false ->
  json_object_object_get_ex (parse (received_text o)) "devices"
  = Some (jarray [e]) ->
  let r := http_signin parse print o g sock uuid token (Some f) in
  ret r = (- EINVAL)%Z /\
  buf r = Some (mk_json_raw None (size (refilled (deliveries o)))) /\
  http_fetch parse print o g sock uuid token (Some f) = r.
Proof.
  intros Hok Hx He r.
  assert (Hf : http_fetch parse print o g sock uuid token (Some f) = r)
    by reflexivity.
  split; [|split; [|exact Hf]]; subst r;
    rewrite (signin_after_transfer parse print o g sock uuid token f Hok), Hx;
    rewrite (check_json_enomem parse print _ _ e He); reflexivity.
Qed.

Lemma signin_enomem_reported_as_einval_witness :
  let o := mk_oracle true [chunk body_one_device] CURLE_OK CURLE_OK 200 false in
  let r := http_signin sample_tokener sample_printer o sample_globals 4
             sample_uuid sample_token (Some empty_buf) in
  ret r = (- EINVAL)%Z /\
  buf r = Some (mk_json_raw None (String.length body_one_device)).
Proof.
  cbv zeta.
  assert (Hok : ok_transfer
                  (mk_oracle true [chunk body_one_device] CURLE_OK CURLE_OK
                     200 false))
    by (repeat split; try reflexivity; [repeat constructor | now left]).
  destruct (signin_enomem_reported_as_einval sample_tokener sample_printer
              _ sample_globals 4 sample_uuid sample_token empty_buf device_a1
              Hok eq_refl eq_refl)
    as (Hr & Hb & _).
  split; [exact Hr | exact Hb].
Defined.

(** X9.  A response that is not a one-device envelope.  When the transfer
    succeeded but the text does not parse to an object whose [devices] is
    an array of one element, [http_signin] and [http_fetch] return
    [-EINVAL] and leave the response itself in the buffer. *)
Theorem signin_rejection_keeps_body (parse : option string -> json_object)
    (print : json_object -> string) (o : oracle) (g : globals) (sock : Z)
    (uuid token : string) (f : json_raw_t) :
  ok_transfer o ->
  (forall e, json_object_object_get_ex (parse (received_text o)) "devices"
             <> Some (jarray [e])) ->
  let r := http_signin parse print o g sock uuid token (Some f) in
  ret r = (- EINVAL)%Z /\
  buf r = Some (refilled (deliveries o)) /\
  http_fetch parse print o g sock uuid token (Some f) = r.
Proof.
  intros Hok Hn r.
  assert (Hf : http_fetch parse print o g sock uuid token (Some f) = r)
    by reflexivity.
  split; [|split; [|exact Hf]]; subst r;
    rewrite (signin_after_transfer parse print o g sock uuid token f Hok);
    rewrite (check_json_rejects parse print _ _ _ Hn); reflexivity.
Qed.

Lemma signin_rejection_keeps_body_witness :
  let r := http_signin sample_tokener sample_printer
             (answers 200 body_two_devices) sample_globals 4 sample_uuid
             sample_token (Some empty_buf) in
  ret r = (- EINVAL)%Z /\
  buf r = Some (mk_json_raw (Some (bytes_of body_two_devices))
                  (String.length body_two_devices)).
Proof.
  cbv zeta.
  assert (Hok : ok_transfer (answers 200 body_two_devices))
    by (repeat split; try reflexivity; [repeat constructor | now left]).
  destruct (signin_rejection_keeps_body sample_tokener sample_printer
              (answers 200 body_two_devices) sample_globals 4 sample_uuid
              sample_token empty_buf Hok) as (Hr & Hb & _).
  - intros e. discriminate.
  - split; [exact Hr | exact Hb].
Defined.

(** ** The requests of the write operations *)

(** X10.  Creating a device.  [http_mknode] hands libcurl one POST of
    [device_uri] that carries no authentication header; a body, when
    given, is sent as it is under the three JSON headers, and without a
    body there is no header at all.  After a probe of the host [host] the
    URL is [host:port/devices], whether or not the name resolved. *)
Theorem mknode_request (o : oracle) (g : globals) (sock : Z)
    (jreq : option string) (json : option json_raw_t) :
  let ch :=
    {| customrequest := "POST";
       url := Some (device_uri g);
       httpheader :=
         match jreq with
         | Some _ => [ "Accept: application/json";
                       "Content-Type: application/json";
                       "charsets: utf-8" ]
         | None => []
         end;
       postfields := jreq;
       useragent := "libcurl-agent/1.0";
       timeout := 30;
       followlocation := 1;
       maxredirs := 1;
       noprogress := 1;
       opensocketdata := if (sock >? 0)%Z then Some sock else None |} in
  performed (events (http_mknode o g sock jreq json))
  = (if curl_init_ok o then match json with Some _ => [ch] | None => [] end
     else []) /\
  forall dns addr0 host port,
    device_uri (snd (fst (http_probe dns addr0 (Some host) port)))
    = host +++ ":" +++ fmt_u port +++ "/devices".
Proof.
  cbv zeta. split.
  - unfold http_mknode. rewrite fetch_url_performed. unfold requested.
    destruct json as [j|]; [|now destruct (curl_init_ok o)].
    destruct (curl_init_ok o); [|reflexivity].
    destruct jreq; reflexivity.
  - intros dns addr0 host port. unfold http_probe.
    destruct (h_addr dns); cbn [snd fst device_uri];
      now rewrite !append_assoc.
Qed.

(** X11.  Remove, set-schema, set-data and data, for a uuid of 36 characters
    and a token of 40.  [http_rmnode] sends a DELETE of [device_uri/uuid]
    without body; [http_schema] and [http_setdata] send the same PUT of
    [device_uri/uuid] and cannot be told apart; [http_data] sends a POST
    of [data_uri/uuid].  All carry the two authentication headers first,
    and the three JSON headers exactly when there is a body. *)
Theorem write_requests (o : oracle) (g : globals) (sock : Z)
    (uuid token : string) (jreq : option string) (json : option json_raw_t) :
  String.length uuid = MESHBLU_UUID_SIZE ->
  String.length token = MESHBLU_TOKEN_SIZE ->
  let handle method base body :=
    {| customrequest := method;
       url := Some (base +++ "/" +++ uuid);
       httpheader :=
         [ "meshblu_auth_uuid: " +++ uuid; "meshblu_auth_token: " +++ token ]
         ++ json_headers body;
       postfields := body;
       useragent := "libcurl-agent/1.0";
       timeout := 30;
       followlocation := 1;
       maxredirs := 1;
       noprogress := 1;
       opensocketdata := if (sock >? 0)%Z then Some sock else None |} in
  let sent ch :=
    if curl_init_ok o then match json with Some _ => [ch] | None => [] end
    else [] in
  performed (events (http_rmnode o g sock uuid token json))
  = sent (handle "DELETE" (device_uri g) None) /\
  performed (events (http_schema o g sock uuid token jreq json))
  = sent (handle "PUT" (device_uri g) jreq) /\
  http_setdata o g sock uuid token jreq json
  = http_schema o g sock uuid token jreq json /\
  performed (events (http_data o g sock uuid token jreq json))
  = sent (handle "POST" (data_uri g) jreq).
Proof.
  intros Hu Ht handle sent.
  assert (Hreq : forall method base body,
    requested o sock (Some (mk_uri base uuid)) body (Some uuid) (Some token)
      json (Some method)
    = sent {| customrequest := upcase (strncpy (REQUEST_SIZE + 1) method);
              url := Some (base +++ "/" +++ uuid);
              httpheader :=
                [ "meshblu_auth_uuid: " +++ uuid;
                  "meshblu_auth_token: " +++ token ] ++ json_headers body;
              postfields := body;
              useragent := "libcurl-agent/1.0";
              timeout := 30;
              followlocation := 1;
              maxredirs := 1;
              noprogress := 1;
              opensocketdata := if (sock >? 0)%Z then Some sock else None |}).
  { intros method base body. subst sent. unfold requested.
    destruct json as [j|]; [|now destruct (curl_init_ok o)].
    destruct (curl_init_ok o); [|reflexivity].
    rewrite mk_uri_truncates, auth_headers_truncate.
    rewrite (substring_all uuid), (substring_all token)
      by (rewrite ?Hu, ?Ht; apply Nat.le_refl).
    reflexivity. }
  unfold http_rmnode, http_schema, http_setdata, http_data.
  rewrite !fetch_url_performed, !Hreq.
  repeat split.
Qed.

Lemma write_requests_witness :
  performed (events (http_rmnode (answers 200 "{}") sample_globals 4
                       sample_uuid sample_token (Some empty_buf)))
  = [ {| customrequest := "DELETE";
         url := Some ("localhost:3000/devices/" +++ sample_uuid);
         httpheader := [ "meshblu_auth_uuid: " +++ sample_uuid;
                         "meshblu_auth_token: " +++ sample_token ];
         postfields := None;
         useragent := "libcurl-agent/1.0";
         timeout := 30;
         followlocation := 1;
         maxredirs := 1;
         noprogress := 1;
         opensocketdata := Some 4%Z |} ].
Proof.
  apply (proj1 (write_requests (answers 200 "{}") sample_globals 4
                  sample_uuid sample_token None (Some empty_buf)
                  eq_refl eq_refl)).
Defined.

(** ** The method is sent in upper case *)

Lemma toupper_not_lower (c : ascii) : is_lower (toupper c) = false.
Proof.
  unfold toupper, is_lower.
  destruct ((97 <=? nat_of_ascii c)%nat && (nat_of_ascii c <=? 122)%nat) eqn:E;
    [|exact E].
  apply andb_true_iff in E. destruct E as [E1 E2].
  apply Nat.leb_le in E1, E2.
  rewrite nat_ascii_embedding by lia.
  apply andb_false_iff. left. apply Nat.leb_gt. lia.
Qed.

Lemma toupper_fixes (c : ascii) : is_lower c = false -> toupper c = c.
Proof. unfold toupper, is_lower. now intros ->. Qed.

Lemma upcase_no_lower (s : string) : has_lower (upcase s) = false.
Proof.
  induction s as [|c s IH]; simpl; [reflexivity|].
  now rewrite toupper_not_lower, IH.
Qed.

Lemma upcase_length (s : string) : String.length (upcase s) = String.length s.
Proof. induction s as [|c s IH]; simpl; [reflexivity | now rewrite IH]. Qed.

Lemma upcase_fixes (s : string) : has_lower s = false -> upcase s = s.
Proof.
  induction s as [|c s IH]; simpl; [reflexivity|].
  intros H. apply orb_false_iff in H. destruct H as [Hc Hs].
  now rewrite (toupper_fixes c Hc), (IH Hs).
Qed.

(** X12.  For a method of at most ten characters, what [fetch_url] gives
    libcurl as the request method is the caller's string with every
    lower-case letter replaced by its capital: it has the same length, no
    lower-case letter is left, and a method already in capitals is sent
    unchanged. *)
Theorem method_is_upper_cased (o : oracle) (sockfd : Z)
    (action json uuid token : option string) (f : json_raw_t) (rq : string) :
  curl_init_ok o = true -> String.length rq <= REQUEST_SIZE ->
  exists ch,
    performed (events (fetch_url o sockfd action json uuid token (Some f)
                         (Some rq))) = [ch] /\
    customrequest ch = upcase rq /\
    has_lower (customrequest ch) = false /\
    String.length (customrequest ch) = String.length rq /\
    (has_lower rq = false -> customrequest ch = rq).
Proof.
  intros Hi Hlen. rewrite fetch_url_performed. unfold requested. rewrite Hi.
  eexists. split; [reflexivity|]. cbn [customrequest].
  unfold strncpy. rewrite substring_all by lia.
  split; [reflexivity|]. split; [apply upcase_no_lower|].
  split; [apply upcase_length | apply upcase_fixes].
Qed.

Lemma method_is_upper_cased_witness :
  exists ch,
    performed (events (fetch_url (answers 200 "{}") 4
                         (Some "localhost:3000/devices") None None None
                         (Some empty_buf) (Some "get"))) = [ch] /\
    customrequest ch = "GET".
Proof.
  destruct (method_is_upper_cased (answers 200 "{}") 4
              (Some "localhost:3000/devices") None None None empty_buf "get"
              eq_refl) as (ch & Hp & Hc & _).
  - unfold REQUEST_SIZE. simpl. lia.
  - exists ch. split; [exact Hp | exact Hc].
Defined.

(** ** Descriptors held by [http_connect] *)

Lemma remove_fd_fresh (fd : Z) (fds : list Z) :
  ~ In fd fds -> remove_fd fd (fd :: fds) = fds.
Proof.
  intros Hn. unfold remove_fd. simpl. rewrite Z.eqb_refl. simpl.
  induction fds as [|x fds IH]; simpl; [reflexivity|].
  destruct (x =? fd)%Z eqn:E.
  - apply Z.eqb_eq in E. subst x. elim Hn. now left.
  - simpl. f_equal. apply IH. intros H. apply Hn. now right.
Qed.

(** X13.  [http_connect] keeps a descriptor only when it succeeds.  With a
    descriptor from [socket] that was not open before: when [socket]
    fails, or [connect] fails (the socket is closed again), the set of
    open descriptors is what it was and the result is the negated
    [errno]; when both succeed the result is the new descriptor, now
    open. *)
Theorem http_connect_descriptors (n : sockets) (g : globals) (fds : list Z) :
  ~ In (socket_fd n) fds ->
  let r := fst (fst (http_connect n g fds)) in
  let fds' := snd (fst (http_connect n g fds)) in
  (socket_fd n = -1 -> r = - socket_errno n /\ fds' = fds)%Z /\
  (socket_fd n <> -1 -> connect_rc n < 0 ->
   r = - connect_errno n /\ fds' = fds)%Z /\
  (socket_fd n <> -1 -> 0 <= connect_rc n ->
   r = socket_fd n /\ fds' = socket_fd n :: fds)%Z.
Proof.
  intros Hfresh r fds'. subst r fds'. unfold http_connect.
  split; [|split].
  - intros E. apply Z.eqb_eq in E. rewrite E. now split.
  - intros E Hc. apply Z.eqb_neq in E. apply Z.ltb_lt in Hc.
    rewrite E, Hc. simpl. split; [reflexivity|]. now apply remove_fd_fresh.
  - intros E Hc. apply Z.eqb_neq in E. apply Z.ltb_ge in Hc.
    rewrite E, Hc. now split.
Qed.

Lemma http_connect_descriptors_witness :
  snd (fst (http_connect (mk_sockets 5 0 (-1) 111) sample_globals [3%Z; 4%Z]))
  = [3%Z; 4%Z] /\
  fst (fst (http_connect (mk_sockets 5 0 (-1) 111) sample_globals [3%Z; 4%Z]))
  = (-111)%Z.
Proof.
  assert (Hfresh : ~ In 5%Z [3%Z; 4%Z])
    by (intros [H | [H | []]]; discriminate).
  destruct (proj1 (proj2 (http_connect_descriptors (mk_sockets 5 0 (-1) 111)
                            sample_globals [3%Z; 4%Z] Hfresh)))
    as [Hr Hf].
  - discriminate.
  - reflexivity.
  - split; [exact Hf | exact Hr].
Defined.

(** ** Watches on the loop *)

Section Loop.

Variable parse : option string -> json_object.
Variable print : json_object -> string.
Variable g : globals.

Lemma proto_poll_keeps (o : oracle) (d : to_fetch) :
  fst (proto_poll parse print o g d) = true.
Proof. unfold proto_poll. destruct (negb _); reflexivity. Qed.


Lemma count_free_app (p : nat) (a b : list event) :
  count_free p (a ++ b) = count_free p a + count_free p b.
Proof.
  induction a as [|e a IH]; simpl; [reflexivity|].
  destruct e; simpl; rewrite IH; try reflexivity. lia.
Qed.

Lemma count_free_logs (p : nat) (l : list event) :
  forallb is_log l = true -> count_free p l = 0.
Proof.
  induction l as [|e l IH]; simpl; [reflexivity|].
  destruct e; simpl; try discriminate; exact IH.
Qed.

Lemma count_free_perform (p : nat) (l : list CURL) :
  count_free p (map curl_perform l) = 0.
Proof. induction l as [|c l IH]; simpl; [reflexivity | exact IH]. Qed.

Lemma count_free_fetch_url (p : nat) (o : oracle) (sockfd : Z)
    (action json uuid token : option string) (fetch : option json_raw_t)
    (request : option string) :
  count_free p (events (fetch_url o sockfd action json uuid token fetch request))
  = 0.
Proof.
  destruct (fetch_url_shape o sockfd action json uuid token fetch request)
    as (pre & post & -> & Hpre & Hpost).
  rewrite !count_free_app, count_free_perform.
  now rewrite (count_free_logs p _ Hpre), (count_free_logs p _ Hpost).
Qed.

Lemma count_free_poll (p : nat) (o : oracle) (d : to_fetch) :
  count_free p (snd (proto_poll parse print o g d)) = 0.
Proof.
  assert (Hf : count_free p
                 (events (http_fetch parse print o g (proto_sock d) (uuid d)
                            (token d) (Some (mk_json_raw None 0)))) = 0).
  { rewrite http_fetch_checked. unfold checked.
    destruct (ret _ <? 0)%Z; [apply count_free_fetch_url|].
    destruct (buf _) as [j|]; [|apply count_free_fetch_url].
    pose proof (check_json_events parse print (extract_ok o)
                  (option_map c_str (data j)) j) as He.
    destruct (check_json parse print _ _ j) as [[c j1] ev]. simpl in He.
    assert (count_free p ev = 0) by (destruct He as [-> | ->]; reflexivity).
    destruct (c <? 0)%Z; cbn [events];
      now rewrite count_free_app, count_free_fetch_url. }
  unfold proto_poll. destruct (negb _); cbn [snd];
    now rewrite count_free_app, Hf.
Qed.

Lemma find_io_in (id : nat) (ws : list io_source) (w : io_source) :
  find_io id ws = Some w -> In w ws /\ w_id w = id.
Proof.
  induction ws as [|x ws IH]; simpl; [discriminate|].
  destruct (w_id x =? id)%nat eqn:E.
  - intros H. injection H as <-. apply Nat.eqb_eq in E. split; [now left | exact E].
  - intros H. destruct (IH H) as [Hin Hid]. split; [now right | exact Hid].
Qed.

Lemma NoDup_map_filter {A B : Type} (h : A -> B) (keep : A -> bool)
    (l : list A) :
  NoDup (map h l) -> NoDup (map h (filter keep l)).
Proof.
  induction l as [|a l IH]; simpl; [constructor|].
  intros H. inversion H as [|x xs Hnin Hnd]; subst.
  destruct (keep a); [|now apply IH].
  simpl. constructor; [|now apply IH].
  intros Hin. apply Hnin. apply in_map_iff in Hin.
  destruct Hin as (b & Hb & Hbin). apply filter_In in Hbin.
  apply in_map_iff. exists b. tauto.
Qed.

Lemma NoDup_map_inj {A B : Type} (h : A -> B) (l : list A) (a b : A) :
  NoDup (map h l) -> In a l -> In b l -> h a = h b -> a = b.
Proof.
  induction l as [|x l IH]; simpl; [tauto|].
  intros H Ha Hb E. inversion H as [|y ys Hnin Hnd]; subst.
  destruct Ha as [-> | Ha], Hb as [-> | Hb]; try reflexivity.
  - elim Hnin. rewrite E. now apply in_map.
  - elim Hnin. rewrite <- E. now apply in_map.
  - now apply IH.
Qed.

Lemma sound_register (l : main_loop) (sock : Z) (uuid token : string)
    (cb ctx : Z) :
  watches_sound l ->
  watches_sound (snd (proto_register_watch sock uuid token cb ctx l)).
Proof.
  intros (Hid & Hdata & Hw & Hfresh & Hone).
  unfold watches_sound, proto_register_watch. simpl.
  repeat split.
  - constructor; [|exact Hid]. intros Hin. apply in_map_iff in Hin.
    destruct Hin as (w & Hw1 & Hw2). destruct (Hw w Hw2) as (Hlt & _). lia.
  - constructor; [|exact Hdata]. intros Hin. apply in_map_iff in Hin.
    destruct Hin as (w & Hw1 & Hw2). destruct (Hw w Hw2) as (_ & Hlt & _). lia.
  - destruct H as [<- | H]; simpl; [lia|]. destruct (Hw w H) as (Hlt & _). lia.
  - destruct H as [<- | H]; simpl; [lia|]. destruct (Hw w H) as (_ & Hlt & _). lia.
  - destruct H as [<- | H]; simpl; [now apply Hfresh|].
    now destruct (Hw w H) as (_ & _ & Hc).
  - intros p Hp. apply Hfresh. lia.
  - exact Hone.
Qed.

Lemma sound_step (l : main_loop) (i : loop_input) :
  watches_sound l -> watches_sound (loop_step parse print g l i).
Proof.
  intros Hs. pose proof Hs as (Hid & Hdata & Hw & Hfresh & Hone).
  destruct i as [id o | id | id]; unfold loop_step.
  - (* a timer fires: the history grows by calls and logs only *)
    destruct (find_timeout id (timeouts l)) as [t|]; [|exact Hs].
    assert (Hsame : forall ev,
      (forall p, count_free p ev = 0) ->
      watches_sound
        (mk_main_loop (blocks l) (next_block l) (timeouts l) (io_watches l)
           (next_source l) (history l ++ ev))).
    { intros ev Hev. unfold watches_sound. simpl.
      repeat split; try assumption.
      - now destruct (Hw w H) as (H1 & _).
      - now destruct (Hw w H) as (_ & H1 & _).
      - rewrite count_free_app, Hev. destruct (Hw w H) as (_ & _ & H1). lia.
      - intros p Hp. rewrite count_free_app, Hev, (Hfresh p Hp). reflexivity.
      - intros p. rewrite count_free_app, Hev. specialize (Hone p). lia. }
    destruct (find_block (t_data t) (blocks l)) as [d|].
    + pose proof (proto_poll_keeps o d) as Hk.
      pose proof (fun p => count_free_poll p o d) as Hp.
      destruct (proto_poll parse print o g d) as [keep ev]. simpl in Hk, Hp.
      subst keep. unfold record_events. simpl.
      rewrite <- app_assoc. apply Hsame.
      intros p. rewrite count_free_app, Hp. reflexivity.
    + unfold record_events. apply Hsame. reflexivity.
  - (* the channel is down: the handle of this watch is freed *)
    destruct (find_io id (io_watches l)) as [w|] eqn:Ef; [|exact Hs].
    destruct (find_io_in _ _ _ Ef) as [Hin Hwid].
    destruct (Hw w Hin) as (Hlt1 & Hlt2 & Hc).
    unfold http_hup_cb, record_events, without_io, watches_sound, drop_io.
    simpl.
    assert (Hcount : forall p,
      count_free p
        ((history l ++ [dispatch "http_hup_cb" (w_data w)])
         ++ [g_free (w_data w)])
      = count_free p (history l) + (if (w_data w =? p)%nat then 1 else 0)).
    { intros p. rewrite !count_free_app. simpl. lia. }
    repeat split.
    + now apply NoDup_map_filter.
    + now apply NoDup_map_filter.
    + apply filter_In in H. destruct H as [H _].
      now destruct (Hw w0 H) as (H1 & _).
    + apply filter_In in H. destruct H as [H _].
      now destruct (Hw w0 H) as (_ & H1 & _).
    + apply filter_In in H. destruct H as [H Hkeep].
      rewrite Hcount. destruct (Hw w0 H) as (_ & _ & H1). rewrite H1.
      destruct (w_data w =? w_data w0)%nat eqn:E; [|reflexivity].
      apply Nat.eqb_eq in E.
      assert (w = w0) by (apply (NoDup_map_inj w_data (io_watches l)); assumption).
      subst w0. rewrite Hwid, Nat.eqb_refl in Hkeep. discriminate.
    + intros p Hp. rewrite Hcount, (Hfresh p Hp).
      destruct (w_data w =? p)%nat eqn:E; [|reflexivity].
      apply Nat.eqb_eq in E. lia.
    + intros p. rewrite Hcount.
      destruct (w_data w =? p)%nat eqn:E; [|specialize (Hone p); lia].
      apply Nat.eqb_eq in E. subst p. rewrite Hc. lia.
  - (* a source is removed: nothing is freed *)
    unfold without_io, without_timeout, watches_sound, drop_io. simpl.
    repeat split; try assumption.
    + now apply NoDup_map_filter.
    + now apply NoDup_map_filter.
    + apply filter_In in H. destruct H as [H _].
      now destruct (Hw w H) as (H1 & _).
    + apply filter_In in H. destruct H as [H _].
      now destruct (Hw w H) as (_ & H1 & _).
    + apply filter_In in H. destruct H as [H _].
      now destruct (Hw w H) as (_ & _ & H1).
Qed.

Lemma sound_session (acts : list loop_action) (l : main_loop) :
  watches_sound l -> watches_sound (fold_left (act parse print g) acts l).
Proof.
  revert l. induction acts as [|a acts IH]; intros l Hl; [exact Hl|].
  simpl. apply IH. destruct a; simpl.
  - now apply sound_register.
  - now apply sound_step.
Qed.

End Loop.


(** X15.  No handle is freed twice.  However watches are registered and
    whatever the loop is told afterwards (timers firing, channels going
    down, sources removed, in any order and any number of times), each
    [to_fetch] handle is passed to [g_free] at most once. *)
Theorem handle_freed_at_most_once (parse : option string -> json_object)
    (print : json_object -> string) (g : globals) (acts : list loop_action)
    (p : nat) :
  count_free p (history (session parse print g acts)) <= 1.
Proof.
  assert (H0 : watches_sound empty_loop).
  { unfold watches_sound, empty_loop. simpl.
    repeat split; try constructor; try tauto; intros; lia. }
  destruct (sound_session parse print g acts empty_loop H0)
    as (_ & _ & _ & _ & Hone).
  apply Hone.
Qed.

(** X16.  A source that is gone is never run again.  After [g_source_remove]
    of a timer, the loop ignores that timer's ticks: no poll, no request,
    no callback.  After a hang-up watch has run once it is gone too: a
    second condition on its channel does nothing. *)
Theorem removed_sources_never_run (parse : option string -> json_object)
    (print : json_object -> string) (g : globals) (l : main_loop)
    (id : nat) (o : oracle) :
  let step := loop_step parse print g in
  step (step l (source_remove id)) (timer_fires id o)
  = step l (source_remove id) /\
  step (step l (channel_down id)) (channel_down id)
  = step l (channel_down id) /\
  step (step l (source_remove id)) (channel_down id)
  = step l (source_remove id).
Proof.
  cbv zeta.
  assert (Ht : forall ts, find_timeout id (drop_timeout id ts) = None).
  { induction ts as [|t ts IH]; simpl; [reflexivity|].
    destruct (t_id t =? id)%nat eqn:E; simpl; [exact IH|]. now rewrite E. }
  assert (Hw : forall ws, find_io id (drop_io id ws) = None).
  { induction ws as [|w ws IH]; simpl; [reflexivity|].
    destruct (w_id w =? id)%nat eqn:E; simpl; [exact IH|]. now rewrite E. }
  change (loop_step parse print g l (source_remove id))
    with (without_io id (without_timeout id l)).
  split; [|split].
  - unfold loop_step. cbn [timeouts without_io without_timeout].
    now rewrite Ht.
  - unfold loop_step at 2.
    destruct (find_io id (io_watches l)) as [w|] eqn:E.
    + unfold loop_step. cbn [http_hup_cb record_events without_io io_watches].
      now rewrite Hw, E.
    + unfold loop_step. now rewrite E.
  - unfold loop_step. cbn [io_watches without_io without_timeout].
    now rewrite Hw.
Qed.


(** ** The configuration file (main.c) *)










Section Config.

Variable parse : option string -> json_object.
Variable get_string : json_object -> option string.
Variable get_int : json_object -> Z.

Local Abbreviation parse_config := (Main.parse_config parse get_string get_int).

(** [parse_config] without its first test: a [NULL] object has no
    member. *)
Lemma parse_config_cloud (config : option string) (st : Main.settings) :
  parse_config config st =
  match json_object_object_get_ex (parse config) "cloud" with
  | None => ((- EINVAL)%Z, st)
  | Some obj_cloud =>
    match json_object_object_get_ex obj_cloud "uuid" with
    | None => ((- EINVAL)%Z, st)
    | Some obj_uuid =>
      match json_object_object_get_ex obj_cloud "token" with
      | None => ((- EINVAL)%Z, st)
      | Some obj_token =>
        match Main.host st, json_object_object_get_ex obj_cloud "serverName" with
        | None, None => ((- EINVAL)%Z, st)
        | h, sn =>
          let st1 :=
            match h, sn with
            | None, Some obj_tmp => Main.set_host (get_string obj_tmp) st
            | _, _ => st
            end in
          if (Main.port st =? 0)%Z then
            match json_object_object_get_ex obj_cloud "port" with
            | None => ((- EINVAL)%Z, st1)
            | Some obj_tmp =>
                (0%Z,
                 Main.set_credentials (get_string obj_uuid)
                   (get_string obj_token)
                   (Main.set_port (get_int obj_tmp) st1))
            end
          else
            (0%Z,
             Main.set_credentials (get_string obj_uuid) (get_string obj_token)
               st1)
        end
      end
    end
  end.
Proof.
  unfold Main.parse_config.
  destruct (parse config) as [| | | |members| |]; try reflexivity.
  destruct (json_object_object_get_ex (jobject members) "cloud")
    as [cloud|]; [|reflexivity].
  destruct (json_object_object_get_ex cloud "uuid"); [|reflexivity].
  destruct (json_object_object_get_ex cloud "token"); [|reflexivity].
  destruct (Main.host st) as [h|] eqn:Eh;
    destruct (json_object_object_get_ex cloud "serverName");
    try reflexivity; cbv zeta; cbn [Main.port Main.set_host];
    (destruct (Main.port st =? 0)%Z; [|reflexivity]);
    destruct (json_object_object_get_ex cloud "port"); reflexivity.
Qed.

Lemma parse_config_range (config : option string) (st : Main.settings) :
  fst (parse_config config st) = 0%Z \/
  fst (parse_config config st) = (- EINVAL)%Z.
Proof.
  rewrite parse_config_cloud.
  destruct (json_object_object_get_ex (parse config) "cloud") as [cloud|];
    [|now right].
  destruct (json_object_object_get_ex cloud "uuid"); [|now right].
  destruct (json_object_object_get_ex cloud "token"); [|now right].
  destruct (Main.host st);
    destruct (json_object_object_get_ex cloud "serverName");
    cbv zeta; try (now right);
    (destruct (Main.port st =? 0)%Z; [|now left]);
    (destruct (json_object_object_get_ex cloud "port"); [now left | now right]).
Qed.

(** Whatever the outcome, [parse_config] leaves the protocol, the tty, a
    host that was set and a port that was not zero as they were. *)
Lemma parse_config_keeps (config : option string) (st : Main.settings) :
  let st' := snd (parse_config config st) in
  Main.proto st' = Main.proto st /\ Main.tty st' = Main.tty st /\
  (forall h, Main.host st = Some h -> Main.host st' = Some h) /\
  (Main.port st <> 0%Z -> Main.port st' = Main.port st).
Proof.
  cbv zeta. rewrite parse_config_cloud.
  destruct (json_object_object_get_ex (parse config) "cloud") as [cloud|];
    [|now repeat split].
  destruct (json_object_object_get_ex cloud "uuid"); [|now repeat split].
  destruct (json_object_object_get_ex cloud "token"); [|now repeat split].
  destruct (Main.host st) as [h|] eqn:Eh;
    destruct (json_object_object_get_ex cloud "serverName");
    cbv zeta; try (now repeat split);
    (destruct (Main.port st =? 0)%Z eqn:Ep;
     [apply Z.eqb_eq in Ep;
      destruct (json_object_object_get_ex cloud "port")
     |apply Z.eqb_neq in Ep]);
    simpl;
    (split; [reflexivity|]); (split; [reflexivity|]);
    (split; [intros h0 H0; congruence | intros H0; congruence]).
Qed.

End Config.

(** X18.  When a configuration is accepted.  [parse_config] returns 0 exactly
    when the text parses to an object with a member [cloud] that has the
    members [uuid] and [token], and [serverName] unless a host came from
    the command line, and [port] unless a port did; in every other case
    it returns [-EINVAL]. *)
Theorem parse_config_succeeds_iff (parse : option string -> json_object)
    (get_string : json_object -> option string) (get_int : json_object -> Z)
    (config : option string) (st : Main.settings) :
  let r := fst (Main.parse_config parse get_string get_int config st) in
  (r = 0%Z <->
   exists cloud,
     json_object_object_get_ex (parse config) "cloud" = Some cloud /\
     json_object_object_get_ex cloud "uuid" <> None /\
     json_object_object_get_ex cloud "token" <> None /\
     (Main.host st = None ->
      json_object_object_get_ex cloud "serverName" <> None) /\
     (Main.port st = 0%Z -> json_object_object_get_ex cloud "port" <> None)) /\
  (r = 0%Z \/ r = (- EINVAL)%Z).
Proof.
  cbv zeta. rewrite parse_config_cloud.
  destruct (json_object_object_get_ex (parse config) "cloud") as [cloud|].
  2:{ split; [|now right]. split; [discriminate|].
      intros (c & H & _). discriminate. }
  assert (Hex : forall P : json_object -> Prop,
            (exists c, Some cloud = Some c /\ P c) <-> P cloud).
  { intros P. split; [intros (c & H & Hp); now injection H as <- | eauto]. }
  rewrite Hex.
  destruct (json_object_object_get_ex cloud "uuid") as [u|].
  2:{ split; [|now right]. split; [discriminate|]. intros (H & _). now elim H. }
  destruct (json_object_object_get_ex cloud "token") as [t|].
  2:{ split; [|now right]. split; [discriminate|].
      intros (_ & H & _). now elim H. }
  destruct (Main.host st) as [h|] eqn:Eh;
    destruct (json_object_object_get_ex cloud "serverName") as [sn|];
    cbv zeta;
    try (destruct (Main.port st =? 0)%Z eqn:Ep;
         [apply Z.eqb_eq in Ep;
          destruct (json_object_object_get_ex cloud "port") as [pn|]
         |apply Z.eqb_neq in Ep]);
    simpl fst;
    (split; [|(now left) || (now right)]);
    (split;
     [ try discriminate; intros _; repeat split; try discriminate;
       intros H; now elim Ep
     | try reflexivity; intros (_ & _ & H1 & H2);
       try (now elim (H2 Ep)); try (now elim (H1 eq_refl)) ]).
Qed.

Lemma parse_config_succeeds_iff_witness :
  fst (Main.parse_config
         (fun _ => jobject [("cloud",
                     jobject [("uuid", jstring sample_uuid);
                              ("token", jstring sample_token);
                              ("port", jint 3000)])])
         (fun j => match j with jstring s => Some s | _ => None end)
         (fun j => match j with jint i => i | _ => 0%Z end)
         (Some "knotd.conf text")
         (Main.mk_settings "http" None (Some "localhost") 0 None None))
  = 0%Z.
Proof.
  apply (proj1 (parse_config_succeeds_iff _ _ _ _ _)).
  eexists. split; [reflexivity|].
  repeat split; discriminate.
Defined.

(** X19.  What an accepted configuration sets.  When [parse_config] returns
    0, the uuid and the token are those of the file's [cloud] object; a
    host or a non-zero port given before (from the command line) is kept
    and the file's [serverName] or [port] is not read in its place; a
    missing host or a zero port is taken from the file.  Protocol and tty
    are never touched. *)
Theorem parse_config_reads_cloud (parse : option string -> json_object)
    (get_string : json_object -> option string) (get_int : json_object -> Z)
    (config : option string) (st : Main.settings) :
  fst (Main.parse_config parse get_string get_int config st) = 0%Z ->
  let st' := snd (Main.parse_config parse get_string get_int config st) in
  exists cloud obj_uuid obj_token,
    json_object_object_get_ex (parse config) "cloud" = Some cloud /\
    json_object_object_get_ex cloud "uuid" = Some obj_uuid /\
    json_object_object_get_ex cloud "token" = Some obj_token /\
    Main.uuid st' = get_string obj_uuid /\
    Main.token st' = get_string obj_token /\
    (forall h, Main.host st = Some h -> Main.host st' = Some h) /\
    (Main.port st <> 0%Z -> Main.port st' = Main.port st) /\
    (Main.host st = None ->
     exists sn, json_object_object_get_ex cloud "serverName" = Some sn /\
                Main.host st' = get_string sn) /\
    (Main.port st = 0%Z ->
     exists pn, json_object_object_get_ex cloud "port" = Some pn /\
                Main.port st' = get_int pn) /\
    Main.proto st' = Main.proto st /\ Main.tty st' = Main.tty st.
Proof.
  cbv zeta. rewrite parse_config_cloud.
  destruct (json_object_object_get_ex (parse config) "cloud") as [cloud|] eqn:Ec;
    [|discriminate].
  destruct (json_object_object_get_ex cloud "uuid") as [u|] eqn:Eu;
    [|discriminate].
  destruct (json_object_object_get_ex cloud "token") as [t|] eqn:Et;
    [|discriminate].
  destruct (Main.host st) as [h|] eqn:Eh;
    destruct (json_object_object_get_ex cloud "serverName") as [sn|] eqn:Es;
    cbv zeta; try discriminate;
    (destruct (Main.port st =? 0)%Z eqn:Ep;
     [apply Z.eqb_eq in Ep;
      destruct (json_object_object_get_ex cloud "port") as [pn|] eqn:Epn;
      [|discriminate]
     |apply Z.eqb_neq in Ep]);
    intros _; exists cloud, u, t; simpl;
    (split; [reflexivity|]); (split; [exact Eu|]); (split; [exact Et|]);
    (split; [reflexivity|]); (split; [reflexivity|]);
    (split; [intros h0 H0; congruence|]);
    (split; [intros H0; congruence|]);
    (split; [intros H0;
             first [congruence | eexists; split; [eassumption | reflexivity]]|]);
    (split; [intros H0;
             first [congruence | eexists; split; [eassumption | reflexivity]]|]);
    split; reflexivity.
Qed.

Lemma parse_config_reads_cloud_witness :
  let st' :=
    snd (Main.parse_config
           (fun _ => jobject [("cloud",
                       jobject [("uuid", jstring sample_uuid);
                                ("token", jstring sample_token);
                                ("serverName", jstring "cloud.example");
                                ("port", jint 3000)])])
           (fun j => match j with jstring s => Some s | _ => None end)
           (fun j => match j with jint i => i | _ => 0%Z end)
           (Some "knotd.conf text")
           (Main.mk_settings "http" None (Some "localhost") 0 None None)) in
  Main.host st' = Some "localhost" /\ Main.port st' = 3000%Z /\
  Main.uuid st' = Some sample_uuid.
Proof.
  cbv zeta.
  destruct (parse_config_reads_cloud
              (fun _ => jobject [("cloud",
                          jobject [("uuid", jstring sample_uuid);
                                   ("token", jstring sample_token);
                                   ("serverName", jstring "cloud.example");
                                   ("port", jint 3000)])])
              (fun j => match j with jstring s => Some s | _ => None end)
              (fun j => match j with jint i => i | _ => 0%Z end)
              (Some "knotd.conf text")
              (Main.mk_settings "http" None (Some "localhost") 0 None None)
              eq_refl)
    as (cloud & u & t & Hc & Hu & _ & Hsu & _ & Hh & _ & _ & Hp & _).
  split; [now apply Hh|].
  split.
  - destruct (Hp eq_refl) as (pn & Hpn & ->).
    injection Hc as <-. injection Hpn as <-. reflexivity.
  - rewrite Hsu. injection Hc as <-. injection Hu as <-. reflexivity.
Defined.

(** X20.  What a rejected configuration leaves behind.  When [parse_config]
    fails, the uuid and the token are as before and so are a host and a
    port that were already set.  The host is not always as before: with
    no host and no port set, a file that has [serverName] but no [port]
    is rejected after its [serverName] has been stored. *)
Theorem parse_config_failure (parse : option string -> json_object)
    (get_string : json_object -> option string) (get_int : json_object -> Z)
    (config : option string) (st : Main.settings) :
  let r := Main.parse_config parse get_string get_int config st in
  (fst r <> 0%Z ->
   Main.uuid (snd r) = Main.uuid st /\ Main.token (snd r) = Main.token st /\
   Main.port (snd r) = Main.port st /\
   (forall h, Main.host st = Some h -> Main.host (snd r) = Some h)) /\
  (forall cloud sn,
     json_object_object_get_ex (parse config) "cloud" = Some cloud ->
     json_object_object_get_ex cloud "uuid" <> None ->
     json_object_object_get_ex cloud "token" <> None ->
     json_object_object_get_ex cloud "serverName" = Some sn ->
     json_object_object_get_ex cloud "port" = None ->
     Main.host st = None -> Main.port st = 0%Z ->
     fst r = (- EINVAL)%Z /\ Main.host (snd r) = get_string sn).
Proof.
  cbv zeta. rewrite parse_config_cloud. split.
  - destruct (json_object_object_get_ex (parse config) "cloud") as [cloud|];
      [|now repeat split].
    destruct (json_object_object_get_ex cloud "uuid") as [u|];
      [|now repeat split].
    destruct (json_object_object_get_ex cloud "token") as [t|];
      [|now repeat split].
    destruct (Main.host st) as [h|] eqn:Eh;
      destruct (json_object_object_get_ex cloud "serverName") as [sn|];
      cbv zeta; try (now repeat split);
      (destruct (Main.port st =? 0)%Z eqn:Ep;
       [destruct (json_object_object_get_ex cloud "port") as [pn|]|]);
      simpl; intros H; try (now elim H); repeat split; try assumption;
      intros h' H'; congruence.
  - intros cloud sn Hc Hu Ht Hsn Hp Hh Hport.
    rewrite Hc.
    destruct (json_object_object_get_ex cloud "uuid") as [u|];
      [|now elim Hu].
    destruct (json_object_object_get_ex cloud "token") as [t|];
      [|now elim Ht].
    rewrite Hh, Hsn, Hport, Hp. simpl. now split.
Qed.

Lemma parse_config_failure_witness :
  let r :=
    Main.parse_config
      (fun _ => jobject [("cloud",
                  jobject [("uuid", jstring sample_uuid);
                           ("token", jstring sample_token);
                           ("serverName", jstring "cloud.example")])])
      (fun j => match j with jstring s => Some s | _ => None end)
      (fun j => match j with jint i => i | _ => 0%Z end)
      (Some "knotd.conf text")
      (Main.mk_settings "http" None None 0 None None) in
  fst r = (- EINVAL)%Z /\ Main.host (snd r) = Some "cloud.example" /\
  Main.uuid (snd r) = None.
Proof.
  cbv zeta.
  pose proof (parse_config_failure
      (fun _ => jobject [("cloud",
                  jobject [("uuid", jstring sample_uuid);
                           ("token", jstring sample_token);
                           ("serverName", jstring "cloud.example")])])
      (fun j => match j with jstring s => Some s | _ => None end)
      (fun j => match j with jint i => i | _ => 0%Z end)
      (Some "knotd.conf text")
      (Main.mk_settings "http" None None 0 None None)) as [Hkeep Hpart].
  destruct (Hpart _ (jstring "cloud.example") eq_refl) as [Hr Hh];
    try reflexivity; try discriminate.
  split; [exact Hr|]. split; [exact Hh|].
  destruct Hkeep as (Hu & _); [rewrite Hr; discriminate | exact Hu].
Defined.

(** ** The entry point (main.c) *)

Lemma started_app (a b : list Main.main_event) :
  Main.started (a ++ b) = Main.started a ++ Main.started b.
Proof.
  induction a as [|e a IH]; simpl; [reflexivity|].
  destruct e; simpl; now rewrite IH.
Qed.

Lemma load_config_starts_nothing (fs : Main.file_system) (file : string) :
  Main.started (snd (Main.load_config fs file)) = [].
Proof.
  unfold Main.load_config.
  destruct (Main.fopen_r fs file); [|reflexivity].
  destruct (realloc _ _ _); [|reflexivity].
  destruct (negb _); reflexivity.
Qed.

(** X21.  When the manager is started, and with what.  [main] calls
    [manager_start] at most once, and exactly when the options parsed, a
    configuration file was named, [load_config] returned its text and
    [parse_config] accepted it; the settings it passes are those
    [parse_config] left.  Their protocol is always [http], whatever
    [--proto] said, their tty is the option's, and a host or non-zero
    port from the command line wins over the file's. *)
Theorem main_starts_manager (parse : option string -> json_object)
    (get_string : json_object -> option string) (get_int : json_object -> Z)
    (manager_start : Main.settings -> Z) (inv : Main.invocation) :
  let r := Main.main parse get_string get_int manager_start inv in
  let settings0 :=
    Main.mk_settings "http" (Main.opt_tty inv) (Main.opt_host inv)
      (Main.opt_port inv) None None in
  (forall s,
     Main.started (snd r) = [s] <->
     Main.options_error inv = None /\
     exists cfg buffer,
       Main.opt_cfg inv = Some cfg /\
       fst (Main.load_config (Main.files inv) cfg) = Some buffer /\
       Main.parse_config parse get_string get_int (Some (c_str buffer)) settings0
       = (0%Z, s)) /\
  (Main.started (snd r) = [] \/ exists s, Main.started (snd r) = [s]) /\
  (forall s, In s (Main.started (snd r)) ->
     Main.proto s = "http" /\ Main.tty s = Main.opt_tty inv /\
     (forall h, Main.opt_host inv = Some h -> Main.host s = Some h) /\
     (Main.opt_port inv <> 0%Z -> Main.port s = Main.opt_port inv)).
Proof.
  intros r settings0.
  assert (Hfirst : forall s,
     Main.started (snd r) = [s] <->
     Main.options_error inv = None /\
     exists cfg buffer,
       Main.opt_cfg inv = Some cfg /\
       fst (Main.load_config (Main.files inv) cfg) = Some buffer /\
       Main.parse_config parse get_string get_int (Some (c_str buffer)) settings0
       = (0%Z, s)).
  { intros s. subst r. unfold Main.main.
    destruct (Main.options_error inv) as [msg|].
    { simpl. split; [discriminate | intros [H _]; discriminate]. }
    destruct (Main.opt_cfg inv) as [cfg|].
    2:{ simpl. split; [discriminate|]. intros (_ & c & b & H & _). discriminate. }
    pose proof (load_config_starts_nothing (Main.files inv) cfg) as Hl.
    destruct (Main.load_config (Main.files inv) cfg) as [[buffer|] ev1] eqn:El;
      simpl in Hl.
    2:{ simpl. rewrite Hl. split; [discriminate|].
        intros (_ & c & b & H & H' & _). injection H as <-.
        rewrite El in H'. discriminate. }
    fold settings0.
    pose proof (parse_config_range parse get_string get_int
                  (Some (c_str buffer)) settings0) as Hrange.
    destruct (Main.parse_config parse get_string get_int (Some (c_str buffer))
                settings0) as [err s1] eqn:Epc.
    simpl in Hrange.
    assert (Hback : forall e,
      (@None string = None /\
       exists c b,
         Some cfg = Some c /\
         fst (Main.load_config (Main.files inv) c) = Some b /\
         Main.parse_config parse get_string get_int (Some (c_str b)) settings0
         = (0%Z, s)) ->
      err = e -> e = 0%Z /\ s1 = s).
    { intros e (_ & c & b & Hc & Hb & Hp) He. injection Hc as <-.
      rewrite El in Hb. injection Hb as <-. rewrite Epc in Hp.
      injection Hp as H1 H2. subst. now split. }
    destruct Hrange as [-> | ->].
    - change (0 <? 0)%Z with false. cbv iota.
      assert (Hiff : [s1] = [s] <->
        @None string = None /\
        exists c b,
          Some cfg = Some c /\
          fst (Main.load_config (Main.files inv) c) = Some b /\
          Main.parse_config parse get_string get_int (Some (c_str b)) settings0
          = (0%Z, s)).
      { split.
        - intros H. injection H as <-. split; [reflexivity|].
          exists cfg, buffer. rewrite El. now repeat split.
        - intros H. destruct (Hback 0%Z H eq_refl) as [_ ->]. reflexivity. }
      destruct (manager_start s1 <? 0)%Z; [|destruct (Main.loop_quits inv)];
        cbn [snd]; rewrite !started_app, Hl; cbn [Main.started app];
        exact Hiff.
    - simpl. rewrite Hl. split; [discriminate|].
      intros H. destruct (Hback _ H eq_refl) as [H0 _]. discriminate. }
  assert (Hmost : Main.started (snd r) = [] \/
                  exists s, Main.started (snd r) = [s]).
  { subst r. unfold Main.main.
    destruct (Main.options_error inv); [now left|].
    destruct (Main.opt_cfg inv) as [cfg|]; [|now left].
    pose proof (load_config_starts_nothing (Main.files inv) cfg) as Hl.
    destruct (Main.load_config (Main.files inv) cfg) as [[buffer|] ev1];
      simpl in Hl; [|left; simpl; exact Hl].
    destruct (Main.parse_config parse get_string get_int _ _) as [err s1].
    destruct (err <? 0)%Z; [left; simpl; exact Hl|].
    right. exists s1.
    destruct (manager_start s1 <? 0)%Z; [|destruct (Main.loop_quits inv)];
      cbn [snd]; rewrite !started_app, Hl; reflexivity. }
  split; [exact Hfirst|]. split; [exact Hmost|].
  intros s Hin.
  destruct Hmost as [E | [s' E]]; rewrite E in Hin; [now elim Hin|].
  destruct Hin as [<- | []].
  apply Hfirst in E. destruct E as (_ & cfg & buffer & _ & _ & Hp).
  pose proof (parse_config_keeps parse get_string get_int
                (Some (c_str buffer)) settings0) as Hr.
  cbv zeta in Hr. rewrite Hp in Hr. simpl in Hr.
  destruct Hr as (Hproto & Htty & Hh & Hport).
  repeat split; assumption.
Qed.

Lemma main_starts_manager_witness :
  let parse := fun _ : option string =>
    jobject [("cloud",
      jobject [("uuid", jstring sample_uuid);
               ("token", jstring sample_token);
               ("serverName", jstring "cloud.example");
               ("port", jint 3000)])] in
  let get_string := fun j => match j with jstring s => Some s | _ => None end in
  let get_int := fun j => match j with jint i => i | _ => 0%Z end in
  let inv :=
    Main.mk_invocation None (Some "knotd.conf") (Some "localhost") 0 "ws"
      (Some "/dev/ttyUSB0")
      (Main.mk_file_system (fun _ => Some (list_ascii_of_string "{}")) true true)
      0 true in
  Main.started (snd (Main.main parse get_string get_int (fun _ => 0%Z) inv))
  = [Main.mk_settings "http" (Some "/dev/ttyUSB0") (Some "localhost") 3000
       (Some sample_uuid) (Some sample_token)].
Proof.
  cbv zeta.
  apply (proj1 (main_starts_manager _ _ _ _ _)).
  split; [reflexivity|].
  exists "knotd.conf", (bytes_of "{}"). repeat split.
Defined.

(** How [main] ends once [g_option_context_parse] has returned. *)
Lemma main_result (parse : option string -> json_object)
    (get_string : json_object -> option string) (get_int : json_object -> Z)
    (manager_start : Main.settings -> Z) (inv : Main.invocation) :
  let r := fst (Main.main parse get_string get_int manager_start inv) in
  let ev := snd (Main.main parse get_string get_int manager_start inv) in
  let started_ok :=
    exists s, Main.started ev = [s] /\ (0 <= manager_start s)%Z in
  (r = Some Main.EXIT_SUCCESS <-> Main.loop_quits inv = true /\ started_ok) /\
  (r = None <-> Main.loop_quits inv = false /\ started_ok) /\
  (r = Some (- ENOENT)%Z <->
   Main.options_error inv = None /\
   exists cfg, Main.opt_cfg inv = Some cfg /\
               fst (Main.load_config (Main.files inv) cfg) = None) /\
  (r = Some Main.EXIT_SUCCESS \/ r = Some Main.EXIT_FAILURE \/
   r = Some (- ENOENT)%Z \/ r = None).
Proof.
  cbv zeta. unfold Main.main, Main.EXIT_SUCCESS, Main.EXIT_FAILURE, ENOENT.
  destruct (Main.options_error inv) as [msg|].
  { cbn [fst snd Main.started app].
    (split; [|split; [|split]]); try (split; [discriminate|]); try tauto.
    - intros (_ & s & H & _). discriminate.
    - intros (_ & s & H & _). discriminate.
    - intros (H & _). discriminate. }
  destruct (Main.opt_cfg inv) as [cfg|].
  2:{ cbn [fst snd Main.started app].
      (split; [|split; [|split]]); try (split; [discriminate|]); try tauto.
      - intros (_ & s & H & _). discriminate.
      - intros (_ & s & H & _). discriminate.
      - intros (_ & c & H & _). discriminate. }
  pose proof (load_config_starts_nothing (Main.files inv) cfg) as Hl.
  destruct (Main.load_config (Main.files inv) cfg) as [[buffer|] ev1] eqn:El;
    simpl in Hl.
  2:{ cbn [fst snd]. rewrite started_app, Hl. cbn [Main.started app].
      (split; [|split; [|split]]); try (split; [discriminate|]); try tauto.
      - intros (_ & s & H & _). discriminate.
      - intros (_ & s & H & _). discriminate.
      - split; [intros _ | reflexivity]. split; [reflexivity|].
        exists cfg. rewrite El. now split. }
  assert (Hload : ~ (@None string = None /\
            exists c, Some cfg = Some c /\
                      fst (Main.load_config (Main.files inv) c) = None)).
  { intros (_ & c & Hc & H). injection Hc as <-. rewrite El in H.
    discriminate. }
  destruct (Main.parse_config parse get_string get_int _ _) as [err s1].
  destruct (err <? 0)%Z.
  { cbn [fst snd]. rewrite started_app, Hl. cbn [Main.started app].
    (split; [|split; [|split]]); try (split; [discriminate|]); try tauto.
    - intros (_ & s & H & _). discriminate.
    - intros (_ & s & H & _). discriminate. }
  destruct (manager_start s1 <? 0)%Z eqn:Em.
  { apply Z.ltb_lt in Em.
    cbn [fst snd]. rewrite !started_app, Hl. cbn [Main.started app].
    (split; [|split; [|split]]); try (split; [discriminate|]); try tauto.
    - intros (_ & s & H & Hge). injection H as <-. lia.
    - intros (_ & s & H & Hge). injection H as <-. lia. }
  apply Z.ltb_ge in Em.
  destruct (Main.loop_quits inv);
    cbn [fst snd]; rewrite !started_app, Hl; cbn [Main.started app];
    (split; [|split; [|split]]); try (split; [discriminate|]); try tauto;
    try (intros (H & _); discriminate H);
    try (split; [intros _; split; [reflexivity|]; exists s1; now split
                | reflexivity]).
Qed.

(** X22.  How the process ends.  For [--help] GLib prints the usage and
    calls [exit (0)] inside [g_option_context_parse]: the process ends
    with status 0 and the manager is never started; this is the only run
    in which [exit] ends it.  Otherwise [main] returns [EXIT_SUCCESS]
    exactly when the manager started without error and the main loop was
    quit, and it never returns exactly when the manager started without
    error and the loop is never quit.  When the options parsed and a file
    was named but [load_config] returned [NULL], [main] returns the
    negative [-ENOENT]; every other failure gives [EXIT_FAILURE]. *)
Theorem main_exit_status (parse : option string -> json_object)
    (get_string : json_object -> option string) (get_int : json_object -> Z)
    (manager_start : Main.settings -> Z) (args : Main.arguments) :
  let r := fst (Main.program parse get_string get_int manager_start args) in
  let ev := snd (Main.program parse get_string get_int manager_start args) in
  let started_ok :=
    exists s, Main.started ev = [s] /\ (0 <= manager_start s)%Z in
  (r = Main.exits 0 <-> args = Main.asks_for_help) /\
  (args = Main.asks_for_help ->
   Main.started ev = [] /\
   ev = [Main.LOG_INFO "KNOT Gateway\n" []; Main.print_help;
         Main.exit_call 0]) /\
  (r = Main.returns Main.EXIT_SUCCESS <->
   started_ok /\
   exists inv, args = Main.parsed inv /\ Main.loop_quits inv = true) /\
  (r = Main.never_returns <->
   started_ok /\
   exists inv, args = Main.parsed inv /\ Main.loop_quits inv = false) /\
  (r = Main.returns (- ENOENT)%Z <->
   exists inv cfg,
     args = Main.parsed inv /\ Main.options_error inv = None /\
     Main.opt_cfg inv = Some cfg /\
     fst (Main.load_config (Main.files inv) cfg) = None) /\
  (r = Main.exits 0 \/ r = Main.returns Main.EXIT_SUCCESS \/
   r = Main.returns Main.EXIT_FAILURE \/ r = Main.returns (- ENOENT)%Z \/
   r = Main.never_returns).
Proof.
  cbv zeta. destruct args as [|inv].
  { cbn [Main.program fst snd Main.started].
    split; [now split|]. split; [now split|].
    split; [split; [discriminate | intros (_ & i & H & _); discriminate]|].
    split; [split; [discriminate | intros (_ & i & H & _); discriminate]|].
    split; [split; [discriminate | intros (i & c & H & _); discriminate]|].
    now left. }
  pose proof (main_result parse get_string get_int manager_start inv) as H.
  cbv zeta in H. unfold Main.program.
  destruct (Main.main parse get_string get_int manager_start inv) as [r ev].
  cbn [fst snd] in *.
  destruct H as (Hs & Hn & He & Hr).
  assert (Hinv : forall P : Main.invocation -> Prop,
            (exists i, Main.parsed inv = Main.parsed i /\ P i) <-> P inv).
  { intros P. split.
    - intros (i & Hi & Hp). now injection Hi as <-.
    - intros Hp. now exists inv. }
  split; [split; [destruct r; discriminate | discriminate]|].
  split; [discriminate|].
  split.
  { rewrite (Hinv (fun i => Main.loop_quits i = true)).
    split.
    - intros E. destruct r as [z|]; [|discriminate]. injection E as ->.
      apply and_comm. now apply Hs.
    - intros [Hok Hq]. rewrite (proj2 Hs (conj Hq Hok)). reflexivity. }
  split.
  { rewrite (Hinv (fun i => Main.loop_quits i = false)).
    split.
    - intros E. destruct r as [z|]; [discriminate|].
      apply and_comm. now apply Hn.
    - intros [Hok Hq]. rewrite (proj2 Hn (conj Hq Hok)). reflexivity. }
  split.
  { split.
    - intros E. destruct r as [z|]; [|discriminate]. injection E as ->.
      destruct (proj1 He eq_refl) as (Ho & cfg & Hc & Hl).
      exists inv, cfg. now repeat split.
    - intros (i & cfg & Hi & Ho & Hc & Hl). injection Hi as <-.
      rewrite (proj2 He (conj Ho (ex_intro _ cfg (conj Hc Hl)))).
      reflexivity. }
  right. destruct Hr as [-> | [-> | [-> | ->]]]; tauto.
Qed.

Lemma main_exit_status_witness :
  Main.started
    (snd (Main.program (fun _ => jnull) (fun _ => None) (fun _ => 0%Z)
            (fun _ => 0%Z) Main.asks_for_help)) = []
  /\ fst (Main.program (fun _ => jnull) (fun _ => None) (fun _ => 0%Z)
            (fun _ => 0%Z)
            (Main.parsed
               (Main.mk_invocation None (Some "knotd.conf") None 0 "http"
                  None (Main.mk_file_system (fun _ => Some []) true true)
                  0 true)))
     = Main.returns (- ENOENT)%Z.
Proof.
  split.
  - apply (proj1 (proj2 (main_exit_status (fun _ => jnull) (fun _ => None)
                           (fun _ => 0%Z) (fun _ => 0%Z)
                           Main.asks_for_help))).
    reflexivity.
  - apply (proj2 (proj1 (proj2 (proj2 (proj2 (proj2
             (main_exit_status _ _ _ _ _))))))).
    eexists _, "knotd.conf". repeat split.
Defined.
